(** * xvcpi5: the JTAG TAP walker, chain access and the XVC server

    A shallow embedding of [jtag_rpi.py] (class [JTAGRpi]) and of
    [xvcpi.py] (class [XVCServer]), with theorems about the TAP walker,
    the chain arithmetic of [access] and the XVC framing. *)

From Stdlib Require Import ZArith List String Ascii Bool Lia DecimalString.
From stdpp Require Import gmap strings list.
From coqutil Require Import Byte Word.LittleEndianList.
Import ListNotations.

Local Open Scope Z_scope.

(** ** Python exceptions and a small error monad *)

Inductive error : Type :=
| IndexError        (* list.pop on an empty list, str[0] on an empty str, list[i] out of range *)
| ValueError        (* int() on a malformed literal, negative shift count *)
| KeyError          (* dict lookup of an absent key *)
| NotImplemented    (* the explicit raise Exception("... not implemented") *)
| SystemExit        (* exit(1) *)
| TypeError         (* an operator applied to a float where an int is needed *)
| StructError       (* struct.unpack on a buffer that is not 4 bytes long *)
| OutOfFuel.        (* the model's loop budget ran out: the loop is still running *)

Inductive result (A : Type) : Type :=
| Ok (a : A)
| Err (e : error).
Arguments Ok {A} a.
Arguments Err {A} e.

Definition bind {A B} (r : result A) (k : A -> result B) : result B :=
  match r with
  | Ok a => k a
  | Err e => Err e
  end.

Notation "'let?' x ':=' r 'in' k" := (bind r (fun x => k))
  (at level 10, x pattern, r at level 100, k at level 200).

Definition of_option {A} (e : error) (o : option A) : result A :=
  match o with
  | Some a => Ok a
  | None => Err e
  end.

(** ** Python strings *)

Module PyStr.

Definition chr0 : ascii := "0"%char.
Definition chr1 : ascii := "1"%char.

(** [s[-1]] *)
Fixpoint last (s : string) : option ascii :=
  match s with
  | EmptyString => None
  | String c EmptyString => Some c
  | String _ r => last r
  end.

(** [s[:-1]] *)
Fixpoint init (s : string) : string :=
  match s with
  | EmptyString => EmptyString
  | String _ EmptyString => EmptyString
  | String c r => String c (init r)
  end.

(** [s[0]] *)
Definition head (s : string) : option ascii :=
  match s with
  | EmptyString => None
  | String c _ => Some c
  end.

(** [c * n] for a one-character string [c] *)
Fixpoint replicate (n : nat) (c : ascii) : string :=
  match n with
  | O => EmptyString
  | S k => String c (replicate k c)
  end.

Definition len (s : string) : Z := Z.of_nat (String.length s).

(** ASCII white space, as [str.strip()] removes it. *)
Definition is_space (c : ascii) : bool :=
  let n := nat_of_ascii c in
  ((9 <=? n) && (n <=? 13) || (28 <=? n) && (n <=? 32))%nat.

Fixpoint lstrip (s : string) : string :=
  match s with
  | EmptyString => EmptyString
  | String c r => if is_space c then lstrip r else s
  end.

Fixpoint rstrip (s : string) : string :=
  match s with
  | EmptyString => EmptyString
  | String c r =>
      match rstrip r with
      | EmptyString => if is_space c then EmptyString else String c EmptyString
      | r' => String c r'
      end
  end.

Definition strip (s : string) : string := rstrip (lstrip s).

Definition lower_char (c : ascii) : ascii :=
  let n := nat_of_ascii c in
  if ((65 <=? n) && (n <=? 90))%nat then ascii_of_nat (n + 32) else c.

Fixpoint lower (s : string) : string :=
  match s with
  | EmptyString => EmptyString
  | String c r => String (lower_char c) (lower r)
  end.

(** [s[:n]] for [n >= 0] *)
Fixpoint take (n : nat) (s : string) : string :=
  match n, s with
  | S k, String c r => String c (take k r)
  | _, _ => EmptyString
  end.

(** Value of a digit character in bases up to 16. *)
Definition digit_of (c : ascii) : option Z :=
  let n := Z.of_nat (nat_of_ascii c) in
  if (48 <=? n) && (n <=? 57) then Some (n - 48)
  else if (97 <=? n) && (n <=? 102) then Some (n - 87)
  else if (65 <=? n) && (n <=? 70) then Some (n - 55)
  else None.

(** Digits of an integer literal: groups of digits separated by single
    underscores, at least one digit, no trailing underscore. *)
Fixpoint digits (base acc : Z) (after_digit : bool) (s : string) : option Z :=
  match s with
  | EmptyString => if after_digit then Some acc else None
  | String c r =>
      if Ascii.eqb c "_" then
        if after_digit then digits base acc false r else None
      else
        match digit_of c with
        | Some d => if d <? base then digits base (acc * base + d) true r else None
        | None => None
        end
  end.

(** After a base prefix ([0x], [0b]) one underscore may come first. *)
Definition digits_after_prefix (base : Z) (s : string) : option Z :=
  match s with
  | EmptyString => None
  | String c r => if Ascii.eqb c "_" then digits base 0 false r else digits base 0 false s
  end.

Definition unsigned_lit (base : Z) (s : string) : option Z :=
  match s with
  | String c0 (String p r) =>
      if Ascii.eqb c0 "0" &&
         ((base =? 16) && (Ascii.eqb p "x" || Ascii.eqb p "X") ||
          (base =? 2) && (Ascii.eqb p "b" || Ascii.eqb p "B"))
      then digits_after_prefix base r
      else digits base 0 false s
  | _ => digits base 0 false s
  end.

(** [int(s, base)] for base 2, 10 or 16: white space is stripped, a sign
    and (for 2 and 16) the base prefix are optional. *)
Definition int (base : Z) (s : string) : result Z :=
  of_option ValueError
    match strip s with
    | String c r =>
        if Ascii.eqb c "-" then option_map Z.opp (unsigned_lit base r)
        else if Ascii.eqb c "+" then unsigned_lit base r
        else unsigned_lit base (String c r)
    | EmptyString => None
    end.

(** Binary digits of a positive number, most significant first:
    [bin(p)[2:]]. *)
Fixpoint bin_pos (p : positive) (tail : string) : string :=
  match p with
  | xH => String chr1 tail
  | xO q => bin_pos q (String chr0 tail)
  | xI q => bin_pos q (String chr1 tail)
  end.

(** [bin(v)[2:]]: for [v >= 0] the binary digits; for [v < 0] the text
    of [bin(v)] is [-0b...], so the slice starts with the letter [b]. *)
Definition bin_tail (v : Z) : string :=
  match v with
  | Z0 => String chr0 EmptyString
  | Zpos p => bin_pos p EmptyString
  | Zneg p => String "b" (bin_pos p EmptyString)
  end.

(** ["%0*d" % (width, n)] pads the decimal text of [n >= 0] with zeros on
    the left when [width >= 0], and with spaces on the right to
    [-width] columns when [width < 0] (a negative star width is the [-]
    flag, which overrides [0]). *)
Definition pad_left (width : nat) (s : string) : string :=
  append (replicate (width - String.length s) chr0) s.

Definition pad_right (width : nat) (s : string) : string :=
  append s (replicate (width - String.length s) " "%char).

End PyStr.

(** ** The TAP walker of [jtag_rpi.py] *)

Inductive JtagLeg : Type :=
| DR | IR | RS | DL | ID | IRP | IRD | DRC | DRR | DRS.

Inductive JtagState : Type :=
| TEST_LOGIC_RESET | RUN_TEST_IDLE | SELECT_SCAN | CAPTURE | SHIFT
| EXIT1 | PAUSE | EXIT2 | UPDATE.

(** A field of a command row: the rows of [reset_fsm] hold text, the rows
    that [access] builds hold a chain name, two integers and a tag. *)
Inductive Field : Type :=
| FStr (s : string)
| FInt (z : Z).

(** A leg is the three-element list [[code, bits, tag]]. *)
Record Leg : Type := mkLeg {
  leg_kind : JtagLeg;
  leg_bits : string;
  leg_tag : Field
}.

(** The three output pins and one write to one of them. *)
Inductive Pin : Type := TCK | TDI | TMS.

Record PinWrite : Type := mkWrite { pw_pin : Pin; pw_level : bool }.

(** Registers and devices of the catalog ([jtag_device.JTAGDevice]).

    Modelled from the spec: the class [JTAGDevice] is imported from
    [jtag_device], which is not among the sources; the spec gives a device
    as [{ir_len, idcode, names: name -> {address, width},
    addresses: address -> {name, width}}]. *)
Record Register : Type := mkRegister {
  reg_name : string;
  address : Z;
  width : Z
}.

Record JTAGDevice : Type := mkDevice {
  ir_len : Z;
  idcode : Z;
  names : gmap string Register;
  addresses : gmap Z Register
}.

(** The attributes of a [JTAGRpi] object that its methods read back, and
    the history of pin writes of the three output devices. *)
Record Walker : Type := mkWalker {
  state : JtagState;
  jtag_legs : list Leg;
  cur_leg : option Leg;          (* [[]] is [None] *)
  readout : bool;
  do_pause : bool;
  tdo_vect : string;
  jtag_results : list Z;
  readdata : Z;
  last_ir_val : Z;
  tms_reset_num : Z;
  devices : list JTAGDevice;
  pin_log : list PinWrite        (* oldest write first *)
}.

Definition set_state (v : JtagState) (w : Walker) : Walker :=
  match w with
  | mkWalker _ legs cur ro dp tv res rd lir trn devs pins =>
      mkWalker v legs cur ro dp tv res rd lir trn devs pins
  end.
Definition set_jtag_legs (v : list Leg) (w : Walker) : Walker :=
  match w with
  | mkWalker st _ cur ro dp tv res rd lir trn devs pins =>
      mkWalker st v cur ro dp tv res rd lir trn devs pins
  end.
Definition set_cur_leg (v : option Leg) (w : Walker) : Walker :=
  match w with
  | mkWalker st legs _ ro dp tv res rd lir trn devs pins =>
      mkWalker st legs v ro dp tv res rd lir trn devs pins
  end.
Definition set_readout (v : bool) (w : Walker) : Walker :=
  match w with
  | mkWalker st legs cur _ dp tv res rd lir trn devs pins =>
      mkWalker st legs cur v dp tv res rd lir trn devs pins
  end.
Definition set_do_pause (v : bool) (w : Walker) : Walker :=
  match w with
  | mkWalker st legs cur ro _ tv res rd lir trn devs pins =>
      mkWalker st legs cur ro v tv res rd lir trn devs pins
  end.
Definition set_tdo_vect (v : string) (w : Walker) : Walker :=
  match w with
  | mkWalker st legs cur ro dp _ res rd lir trn devs pins =>
      mkWalker st legs cur ro dp v res rd lir trn devs pins
  end.
Definition set_jtag_results (v : list Z) (w : Walker) : Walker :=
  match w with
  | mkWalker st legs cur ro dp tv _ rd lir trn devs pins =>
      mkWalker st legs cur ro dp tv v rd lir trn devs pins
  end.
Definition set_readdata (v : Z) (w : Walker) : Walker :=
  match w with
  | mkWalker st legs cur ro dp tv res _ lir trn devs pins =>
      mkWalker st legs cur ro dp tv res v lir trn devs pins
  end.
Definition set_last_ir_val (v : Z) (w : Walker) : Walker :=
  match w with
  | mkWalker st legs cur ro dp tv res rd _ trn devs pins =>
      mkWalker st legs cur ro dp tv res rd v trn devs pins
  end.
Definition set_tms_reset_num (v : Z) (w : Walker) : Walker :=
  match w with
  | mkWalker st legs cur ro dp tv res rd lir _ devs pins =>
      mkWalker st legs cur ro dp tv res rd lir v devs pins
  end.
Definition set_devices (v : list JTAGDevice) (w : Walker) : Walker :=
  match w with
  | mkWalker st legs cur ro dp tv res rd lir trn _ pins =>
      mkWalker st legs cur ro dp tv res rd lir trn v pins
  end.
Definition set_pin_log (v : list PinWrite) (w : Walker) : Walker :=
  match w with
  | mkWalker st legs cur ro dp tv res rd lir trn devs _ =>
      mkWalker st legs cur ro dp tv res rd lir trn devs v
  end.

(** [JTAGRpi.__init__]: the walker starts in Run-Test/Idle with the IR
    cache at its sentinel. *)
Definition init_walker : Walker :=
  mkWalker RUN_TEST_IDLE [] None false false EmptyString [] 0 (-1) 7 [] [].

Definition is_idle (s : JtagState) : bool :=
  match s with
  | TEST_LOGIC_RESET | RUN_TEST_IDLE => true
  | _ => false
  end.

(** The five pin writes of one [phy_sync(tdi, tms)] call. *)
Definition sync_writes (tdi tms : bool) : list PinWrite :=
  [mkWrite TCK false; mkWrite TDI tdi; mkWrite TMS tms;
   mkWrite TCK true; mkWrite TCK false].

(** [int(tdo_vect, 2)] on the text the walker builds (binary digits
    only). *)
Definition int2 (s : string) : result Z := PyStr.int 2 s.

Section Walker.

(** The target: the level of the TDO input as a function of the pin
    writes made so far. *)
Variable tdo_in : list PinWrite -> bool.

(** [phy_sync]: sample TDO first, then TCK=0, TDI, TMS, TCK=1, TCK=0. *)
Definition phy_sync (tdi tms : bool) (w : Walker) : bool * Walker :=
  (tdo_in (pin_log w), set_pin_log (pin_log w ++ sync_writes tdi tms) w).

Definition sync_ (tdi tms : bool) (w : Walker) : Walker :=
  snd (phy_sync tdi tms w).

(** [self.jtag_legs.pop(0)] *)
Definition pop_leg (w : Walker) : result (Leg * Walker) :=
  match jtag_legs w with
  | [] => Err IndexError
  | l :: r => Ok (l, set_jtag_legs r w)
  end.

(** [self.tdo_vect = "1" + self.tdo_vect] or ["0" + ...] *)
Definition push_tdo (tdo : bool) (w : Walker) : Walker :=
  set_tdo_vect (String (if tdo then PyStr.chr1 else PyStr.chr0) (tdo_vect w)) w.

Definition is_one (c : ascii) : bool := Ascii.eqb c PyStr.chr1.

Definition jtag_step (w : Walker) : result Walker :=
  match state w with
  | TEST_LOGIC_RESET =>
      match jtag_legs w with
      | [] => Ok w
      | _ :: _ =>
          Ok (set_last_ir_val (-1) (set_state RUN_TEST_IDLE (sync_ false false w)))
      end
  | RUN_TEST_IDLE =>
      match cur_leg w with
      | Some leg =>
          match leg_kind leg with
          | DR | DRC =>
              Ok (set_state SELECT_SCAN (set_readout false (sync_ false true w)))
          | DRR | DRS =>
              Ok (set_state SELECT_SCAN (set_readout true (sync_ false true w)))
          | IR | IRD =>
              Ok (set_state SELECT_SCAN
                    (set_do_pause false (sync_ false true (sync_ false true w))))
          | IRP =>
              Ok (set_state SELECT_SCAN
                    (set_do_pause true (sync_ false true (sync_ false true w))))
          | RS =>
              let w1 := Nat.iter (Z.to_nat (tms_reset_num w)) (sync_ false true) w in
              let w2 := set_last_ir_val (-1) (set_state TEST_LOGIC_RESET w1) in
              match pop_leg w2 with
              | Ok (l, w3) => Ok (set_cur_leg (Some l) w3)
              | Err _ => Ok (set_cur_leg None w2)
              end
          | DL =>
              let? lw := pop_leg w in
              Ok (set_cur_leg (Some (fst lw)) (snd lw))
          | ID =>
              let? lw := pop_leg (sync_ false false w) in
              Ok (set_cur_leg (Some (fst lw)) (snd lw))
          end
      | None =>
          match jtag_legs w with
          | l :: r => Ok (set_state RUN_TEST_IDLE (set_cur_leg (Some l) (set_jtag_legs r w)))
          | [] => Ok (set_state RUN_TEST_IDLE (sync_ false false w))
          end
      end
  | SELECT_SCAN => Ok (set_state CAPTURE (sync_ false false w))
  | CAPTURE => Ok (set_state SHIFT (set_tdo_vect EmptyString (sync_ false false w)))
  | SHIFT =>
      match cur_leg w with
      | None => Err IndexError
      | Some leg =>
          match leg_kind leg with
          | DRC | DRS => Err NotImplemented
          | _ =>
              if (1 <? PyStr.len (leg_bits leg)) then
                let? c := of_option IndexError (PyStr.last (leg_bits leg)) in
                let w1 := set_cur_leg
                            (Some (mkLeg (leg_kind leg) (PyStr.init (leg_bits leg)) (leg_tag leg))) w in
                let (tdo, w2) := phy_sync (is_one c) false w1 in
                Ok (set_state SHIFT (push_tdo tdo w2))
              else
                let? c := of_option IndexError (PyStr.head (leg_bits leg)) in
                let w1 := set_cur_leg None w in
                let (tdo, w2) := phy_sync (is_one c) true w1 in
                Ok (set_state EXIT1 (push_tdo tdo w2))
          end
      end
  | EXIT1 =>
      if do_pause w then
        Ok (set_do_pause false (set_state PAUSE (sync_ false false w)))
      else
        Ok (set_state UPDATE (sync_ false true w))
  | PAUSE => Ok (set_state EXIT2 (sync_ false true w))
  | EXIT2 => Ok (set_state UPDATE (sync_ false true w))
  | UPDATE =>
      let? v := int2 (tdo_vect w) in
      let w1 := set_jtag_results (jtag_results w ++ [v]) w in
      let w2 := if readout w1 then set_readout false (set_readdata v w1) else w1 in
      let w3 := set_tdo_vect EmptyString w2 in
      match jtag_legs w3 with
      | l :: r =>
          match leg_kind l with
          | DR =>
              Ok (set_state SELECT_SCAN
                    (sync_ false true (set_cur_leg (Some l) (set_jtag_legs r w3))))
          | IRD =>
              Ok (set_state SELECT_SCAN
                    (sync_ false true
                       (set_cur_leg (Some l) (set_jtag_legs r (sync_ false true w3)))))
          | IRP =>
              Ok (set_state SELECT_SCAN
                    (sync_ false true
                       (set_cur_leg (Some l)
                          (set_jtag_legs r (set_do_pause true (sync_ false true w3))))))
          | _ => Ok (set_state RUN_TEST_IDLE (sync_ false false w3))
          end
      | [] => Ok (set_state RUN_TEST_IDLE (sync_ false false w3))
      end
  end.

(** [n] calls of [jtag_step]. *)
Fixpoint steps (n : nat) (w : Walker) : result Walker :=
  match n with
  | O => Ok w
  | S k => let? w1 := jtag_step w in steps k w1
  end.

(** [while state not in (TEST_LOGIC_RESET, RUN_TEST_IDLE): jtag_step()] *)
Fixpoint run_to_idle (fuel : nat) (w : Walker) : result Walker :=
  if is_idle (state w) then Ok w
  else
    match fuel with
    | O => Err OutOfFuel
    | S f => let? w1 := jtag_step w in run_to_idle f w1
    end.

(** [while state in (TEST_LOGIC_RESET, RUN_TEST_IDLE): jtag_step();
    if 0 == len(cur_leg): break] *)
Fixpoint run_out_of_idle (fuel : nat) (w : Walker) : result Walker :=
  if is_idle (state w) then
    match fuel with
    | O => Err OutOfFuel
    | S f =>
        let? w1 := jtag_step w in
        match cur_leg w1 with
        | None => Ok w1
        | Some _ => run_out_of_idle f w1
        end
    end
  else Ok w.

Definition jtag_next (fuel : nat) (w : Walker) : result Walker :=
  if is_idle (state w) then
    match jtag_legs w with
    | _ :: _ =>
        let? w1 := run_out_of_idle fuel w in
        run_to_idle fuel w1
    | [] => jtag_step w
    end
  else run_to_idle fuel w.

(** [while len(self.jtag_legs): self.jtag_next()] *)
Fixpoint process_command (fuel : nat) (w : Walker) : result Walker :=
  match jtag_legs w with
  | [] => Ok w
  | _ :: _ =>
      match fuel with
      | O => Err OutOfFuel
      | S f => let? w1 := jtag_next f w in process_command f w1
      end
  end.

End Walker.

(** ** The row parser *)

Local Open Scope string_scope.
Local Open Scope list_scope.
Local Open Scope Z_scope.

(** [str(f)]: a text field is itself, an integer prints in decimal. *)
Definition field_str (f : Field) : string :=
  match f with
  | FStr s => s
  | FInt z => NilZero.string_of_int (Z.to_int z)
  end.

(** [int(f)] *)
Definition field_int (f : Field) : result Z :=
  match f with
  | FStr s => PyStr.int 10 s
  | FInt z => Ok z
  end.

(** The value field: [0x...] is read in base 16, [0b...] in base 2, and
    anything else (an integer included) with [int(row[2])]. *)
Definition field_value (f : Field) : result Z :=
  match f with
  | FInt z => Ok z
  | FStr s =>
      let p := PyStr.take 2 (PyStr.strip s) in
      if String.eqb p "0x" then PyStr.int 16 s
      else if String.eqb p "0b" then PyStr.int 2 s
      else PyStr.int 10 s
  end.

(** ["%0*d" % (length, int(bin(value)[2:]))].  For [value >= 0] the text
    [bin(value)[2:]] is the binary digits of [value]; read as a decimal
    number and printed with [%d] it is the same digits again, padded by
    [PyStr.pad_left] or [PyStr.pad_right].  For [value < 0] the text
    starts with the letter [b] and [int] raises. *)
Definition leg_bits_of (length value : Z) : result string :=
  if value <? 0 then Err ValueError
  else if 0 <=? length then Ok (PyStr.pad_left (Z.to_nat length) (PyStr.bin_tail value))
  else Ok (PyStr.pad_right (Z.to_nat (- length)) (PyStr.bin_tail value)).

Definition known_chain (chain : string) : bool :=
  existsb (String.eqb chain)
    ["dr"; "ir"; "rs"; "dl"; "id"; "irp"; "ird"; "drc"; "drr"; "drs"].

(** [parse_row]: the leg a row denotes is appended to [jtag_legs]; a row
    of fewer than three fields and a comment row append nothing. *)
Definition parse_row (row : list Field) (w : Walker) : result Walker :=
  match row with
  | f0 :: f1 :: f2 :: rest =>
      let chain := PyStr.strip (PyStr.lower (field_str f0)) in
      let? c0 := of_option IndexError (PyStr.head chain) in
      if Ascii.eqb c0 "#" then Ok w
      else
        let? length := field_int f1 in
        let? value := field_value f2 in
        if negb (known_chain chain) then Err SystemExit
        else
          let? cmd :=
            if String.eqb chain "rs" then Ok (mkLeg RS "0" (FStr "0"))
            else if String.eqb chain "dl" then Ok (mkLeg DL "0" (FStr "0"))
            else if String.eqb chain "id" then Ok (mkLeg ID "0" (FStr "0"))
            else
              let? code :=
                if String.eqb chain "dr" then Ok DR
                else if String.eqb chain "drc" then Err NotImplemented
                else if String.eqb chain "drr" then Err NotImplemented
                else if String.eqb chain "drs" then Err NotImplemented
                else if String.eqb chain "ir" then Ok IR
                else if String.eqb chain "ird" then Ok IRD
                else Ok IRP in
              let? bits := leg_bits_of length value in
              match rest with
              | tag :: _ => Ok (mkLeg code bits tag)
              | [] => Ok (mkLeg code bits (FStr " "))
              end in
          Ok (set_jtag_legs (jtag_legs w ++ [cmd]) w)
  | _ => Ok w
  end.

Fixpoint parse_each (rows : list (list Field)) (w : Walker) : result Walker :=
  match rows with
  | [] => Ok w
  | row :: more => let? w1 := parse_row row w in parse_each more w1
  end.

(** [str.split(",")] *)
Fixpoint split_comma (acc s : string) : list string :=
  match s with
  | EmptyString => [acc]
  | String c r =>
      if Ascii.eqb c "," then acc :: split_comma "" r
      else split_comma (append acc (String c "")) r
  end.

Section Commands.

Variable tdo_in : list PinWrite -> bool.

Definition parse_rows (fuel : nat) (rows : list (list Field)) (w : Walker)
  : result Walker :=
  let w0 := set_jtag_results [] (set_cur_leg None (set_jtag_legs [] w)) in
  let? w1 := parse_each rows w0 in
  process_command tdo_in fuel w1.

Definition reset_fsm (fuel : nat) (num : Z) (w : Walker) : result Walker :=
  let w0 := set_tms_reset_num num w in
  parse_rows fuel [map FStr (split_comma "" "rs, 0, 0")] w0.

End Commands.

(** ** Traces, bit strings and sums *)

(** The pin trace of [n] consecutive [phy_sync(tdi, tms)] cycles. *)
Fixpoint cycles (n : nat) (tdi tms : bool) : list PinWrite :=
  match n with
  | O => []
  | S k => sync_writes tdi tms ++ cycles k tdi tms
  end.

Definition rs_leg : Leg := mkLeg RS "0" (FStr "0").

Definition b2z (b : bool) : Z := if b then 1 else 0.

Definition bit_char (b : bool) : ascii := if b then PyStr.chr1 else PyStr.chr0.

Definition is_bit (c : ascii) : bool := Ascii.eqb c PyStr.chr0 || Ascii.eqb c PyStr.chr1.

Fixpoint all_bits (s : string) : bool :=
  match s with
  | EmptyString => true
  | String c r => is_bit c && all_bits r
  end.

(** The number a string of binary digits denotes, most significant digit
    first. *)
Fixpoint vect_val (s : string) : Z :=
  match s with
  | EmptyString => 0
  | String c r => b2z (is_one c) * 2 ^ Z.of_nat (String.length r) + vect_val r
  end.

(** [Sum over i < n of f i * 2^i]. *)
Fixpoint sum_pow2 (f : nat -> bool) (n : nat) : Z :=
  match n with
  | O => 0
  | S k => sum_pow2 f k + b2z (f k) * 2 ^ Z.of_nat k
  end.


(** The legs that scan a register through the bit-by-bit path. *)
Definition scannable (k : JtagLeg) : bool :=
  match k with
  | DR | IR | IRP | IRD => true
  | _ => false
  end.

(** The TDO level that the [phy_sync] call of the step after [i] steps
    samples (it reads TDO before it writes any pin). *)
Definition sample_at (tdo_in : list PinWrite -> bool) (w : Walker) (i : nat) : bool :=
  match steps tdo_in i w with
  | Ok wi => fst (phy_sync tdo_in false false wi)
  | Err _ => false
  end.

(** The walker is outside the two idle states during its first [n] steps. *)
Definition busy (tdo_in : list PinWrite -> bool) (n : nat) (w : Walker) : Prop :=
  forall j, (j < n)%nat ->
    exists wj, steps tdo_in j w = Ok wj /\ is_idle (state wj) = false.

(** Steps a scan leg takes between Exit1 and Update. *)
Definition exit_steps (pause : bool) : nat := if pause then 3%nat else 1%nat.

(** The legs that the Update state starts at once, without going through
    Run-Test/Idle. *)
Definition shortcut (k : JtagLeg) : bool :=
  match k with
  | DR | IRP | IRD => true
  | _ => false
  end.

Definition is_irp (k : JtagLeg) : bool :=
  match k with
  | IRP => true
  | _ => false
  end.

(** ** Queues of legs *)

Fixpoint scan_count (ls : list Leg) : nat :=
  match ls with
  | [] => O
  | l :: r => ((if scannable (leg_kind l) then 1 else 0) + scan_count r)%nat
  end.

(** The queues of claim C9: every scan leg carries a non-empty string of
    binary digits, every DL or ID leg is followed by a further leg, and
    there are no DRC, DRR or DRS legs (the row parser raises on them). *)
Fixpoint queue_as_claimed (ls : list Leg) : bool :=
  match ls with
  | [] => true
  | l :: r =>
      match leg_kind l with
      | DR | IR | IRP | IRD =>
          all_bits (leg_bits l) && negb (String.eqb (leg_bits l) "")
      | DL | ID => match r with [] => false | _ :: _ => true end
      | RS => true
      | DRC | DRR | DRS => false
      end && queue_as_claimed r
  end.

(** The queues on which the walker does come back: scan legs are
    non-empty, a DL or ID leg is followed by a further leg, and an RS leg
    is the last leg or is followed by at least two legs. *)
Fixpoint legs_ok (ls : list Leg) : bool :=
  match ls with
  | [] => true
  | l :: r =>
      match leg_kind l with
      | DR | IR | IRP | IRD => negb (String.eqb (leg_bits l) "")
      | DL | ID => match r with [] => false | _ :: _ => true end
      | RS => match r with [_] => false | _ => true end
      | DRC | DRR | DRS => false
      end && legs_ok r
  end.

(** What [process_command] leaves behind when it returns. *)
Definition finished (res0 : list Z) (devs : list JTAGDevice) (n : nat) (w : Walker) : Prop :=
  jtag_legs w = [] /\
  cur_leg w = None /\
  is_idle (state w) = true /\
  devices w = devs /\
  exists new, jtag_results w = res0 ++ new /\ length new = n.

Definition terminates (run : nat -> result Walker) (P : Walker -> Prop) : Prop :=
  exists f w, run f = Ok w /\ P w.

(** The rest of [process_command] from inside the second loop of
    [jtag_next], and from inside its first loop. *)
Definition rest_from_scan (tdo_in : list PinWrite -> bool) (f : nat) (w : Walker)
  : result Walker :=
  let? w2 := run_to_idle tdo_in f w in process_command tdo_in f w2.

Definition rest_from_idle (tdo_in : list PinWrite -> bool) (f : nat) (w : Walker)
  : result Walker :=
  let? w1 := run_out_of_idle tdo_in f w in
  let? w2 := run_to_idle tdo_in f w1 in process_command tdo_in f w2.

(** The three situations met while a queue is processed: inside a scan
    (the walker is at Select-Scan with the leg [l] active), inside the
    idle loop (at Run-Test/Idle with [l] active), and between two calls of
    [jtag_next] (idle, no active leg). *)
Definition scan_goal (tdo_in : list PinWrite -> bool) (l : Leg) (r : list Leg) : Prop :=
  legs_ok (l :: r) = true ->
  scannable (leg_kind l) = true ->
  forall ro dp tv res rd lir trn devs pins,
    terminates
      (fun f => rest_from_scan tdo_in f
                  (mkWalker SELECT_SCAN r (Some l) ro dp tv res rd lir trn devs pins))
      (finished res devs (scan_count (l :: r))).

Definition idle_goal (tdo_in : list PinWrite -> bool) (l : Leg) (r : list Leg) : Prop :=
  legs_ok (l :: r) = true ->
  forall ro dp tv res rd lir trn devs pins,
    terminates
      (fun f => rest_from_idle tdo_in f
                  (mkWalker RUN_TEST_IDLE r (Some l) ro dp tv res rd lir trn devs pins))
      (finished res devs (scan_count (l :: r))).

Definition queue_goal (tdo_in : list PinWrite -> bool) (legs : list Leg) : Prop :=
  legs_ok legs = true ->
  forall st ro dp tv res rd lir trn devs pins,
    is_idle st = true ->
    terminates
      (fun f => process_command tdo_in f
                  (mkWalker st legs None ro dp tv res rd lir trn devs pins))
      (finished res devs (scan_count legs)).

(** The rows [rs, 0, 0] and [dr, 1, 1]: a reset followed by one scan. *)
Definition rs_dr_rows : list (list Field) :=
  [[FStr "rs"; FInt 0; FInt 0]; [FStr "dr"; FInt 1; FInt 1]].

Definition rs_dr_legs : list Leg := [rs_leg; mkLeg DR "1" (FStr " ")].

(** ** Tags *)

Definition map_result {A B} (f : A -> B) (r : result A) : result B :=
  match r with
  | Ok a => Ok (f a)
  | Err e => Err e
  end.

(** The leg with its tag replaced by the default tag. *)
Definition untag_leg (l : Leg) : Leg := mkLeg (leg_kind l) (leg_bits l) (FStr " ").

Definition untag (w : Walker) : Walker :=
  match w with
  | mkWalker st legs cur ro dp tv res rd lir trn devs pins =>
      mkWalker st (map untag_leg legs) (option_map untag_leg cur) ro dp tv res rd lir trn
        devs pins
  end.

(** Two rows that agree on their first three fields: they differ at most
    in the tag (and in what follows it, which [parse_row] never reads). *)
Definition same_but_tag (r1 r2 : list Field) : Prop := firstn 3 r1 = firstn 3 r2.

(** ** Chain access: [JTAGRpi.access] *)

(** [l[i]] with Python's negative indices. *)
Definition py_index {A} (l : list A) (i : Z) : result A :=
  let n := Z.of_nat (length l) in
  if 0 <=? i then of_option IndexError (l !! Z.to_nat i)
  else if - n <=? i then of_option IndexError (l !! Z.to_nat (n + i))
  else Err IndexError.

(** [list(enumerate(l))], counting from [i]. *)
Fixpoint enumerate_from {A} (i : Z) (l : list A) : list (Z * A) :=
  match l with
  | [] => []
  | x :: r => (i, x) :: enumerate_from (i + 1) r
  end.

(** The loop over [reversed(list(enumerate(self.devices)))]: the target
    device contributes [addr], every other device its BYPASS opcode, each
    shifted left by the IR lengths summed so far. *)
Fixpoint chain_ir (pairs : list (Z * JTAGDevice)) (device addr : Z) (val len : Z)
  : result (Z * Z) :=
  match pairs with
  | [] => Ok (val, len)
  | (i, d) :: more =>
      let? v :=
        if i =? device then Ok addr
        else let? b := of_option KeyError (names d !! "BYPASS") in Ok (address b) in
      if len <? 0 then Err ValueError
      else chain_ir more device addr (val + Z.shiftl v len) (len + ir_len d)
  end.

(** What [access] computes before it runs the walker. *)
Record AccessPlan : Type := mkPlan {
  dr_len : Z;
  total_dr_len : Z;
  total_ir_val : Z;
  total_ir_len : Z;
  dr_val : Z;
  dr_pad : Z;                      (* [len(self.devices) - 1 - self.device] *)
  rows : list (list Field)
}.

Definition ir_row (p_len p_val : Z) : list Field :=
  [FStr "ir"; FInt p_len; FInt p_val; FStr "id"].

Definition dr_row (p_len p_val : Z) : list Field :=
  [FStr "dr"; FInt p_len; FInt p_val].

Definition access_plan (w : Walker) (addr : Field) (data device : Z) (write : bool)
  : result AccessPlan :=
  let? dev := py_index (devices w) device in
  let? a :=
    match addr with
    | FStr name => let? r := of_option KeyError (names dev !! name) in Ok (address r)
    | FInt a => Ok a
    end in
  let? reg := of_option KeyError (addresses dev !! a) in
  let n := Z.of_nat (length (devices w)) in
  let pad := n - 1 - device in
  let? ir := chain_ir (rev (enumerate_from 0 (devices w))) device a 0 0 in
  let dv := if write then Z.shiftl data pad else 0 in
  let tdl := width reg + n - 1 in
  Ok (mkPlan (width reg) tdl (fst ir) (snd ir) dv pad
        ((if fst ir =? last_ir_val w then [] else [ir_row (snd ir) (fst ir)]) ++
         [dr_row tdl dv])).

(** [list.pop()] *)
Definition pop_last {A} (l : list A) : result (A * list A) :=
  match rev l with
  | [] => Err IndexError
  | x :: r => Ok (x, rev r)
  end.

Section Access.

Variable tdo_in : list PinWrite -> bool.

(** [access]: the returned data and the object afterwards.  The
    attributes [device], [jwrite], [dr_len], [dr_mask], [total_dr_val],
    [ir_val] and the like are scratch values of one call and are kept in
    the plan rather than in the walker.  A negative register width makes
    [2**dr_len] a float, and the final [&] raises. *)
Definition access (fuel : nat) (w : Walker) (addr : Field) (data device : Z) (write : bool)
  : result (Z * Walker) :=
  let? p := access_plan w addr data device write in
  let? w1 := parse_rows tdo_in fuel (rows p) w in
  let w2 := set_last_ir_val (total_ir_val p) w1 in
  let? rr := pop_last (jtag_results w2) in
  if dr_len p <? 0 then Err TypeError
  else
    Ok (Z.land (Z.shiftr (fst rr) (dr_pad p)) (2 ^ dr_len p - 1),
        set_jtag_results (snd rr) w2).



End Access.



(** Two example devices: IR lengths 6 and 4, IDCODE opcodes 9 and 2, BYPASS
    opcodes all ones. *)
Definition example_regs0 : list Register :=
  [mkRegister "IDCODE" 9 32; mkRegister "BYPASS" 63 1].

Definition example_regs1 : list Register :=
  [mkRegister "IDCODE" 2 32; mkRegister "BYPASS" 15 1].

Definition device_of (irl : Z) (regs : list Register) : JTAGDevice :=
  mkDevice irl 0
    (list_to_map (map (fun r => (reg_name r, r)) regs))
    (list_to_map (map (fun r => (address r, r)) regs)).

Definition example_dev0 : JTAGDevice := device_of 6 example_regs0.
Definition example_dev1 : JTAGDevice := device_of 4 example_regs1.

Definition example_chain : Walker := set_devices [example_dev0; example_dev1] init_walker.



(** ** Pin traces *)

(** A trace made of whole [phy_sync] cycles. *)
Definition whole_cycles (l : list PinWrite) : Prop :=
  exists cyc : list (bool * bool),
    l = flat_map (fun p => sync_writes (fst p) (snd p)) cyc.


(** ** The XVC server of [xvcpi.py] *)

Module XVC.

(** The level a pin takes from an integer: [bool(x)]. *)
Definition py_bool (x : Z) : bool := negb (x =? 0).

(** [gpio_write(tck, tms, tdi)]: the three output pins are written in the
    order TCK, TMS, TDI.  The busy loop that follows has no effect on the
    pins and is left out. *)
Definition gpio_write (tck tms tdi : Z) (pins : list PinWrite) : list PinWrite :=
  pins ++ [mkWrite TCK (py_bool tck); mkWrite TMS (py_bool tms); mkWrite TDI (py_bool tdi)].

Section Pins.

(** The target, as for the walker: the TDO level after the pin writes made
    so far. *)
Variable tdo_in : list PinWrite -> bool.

(** [gpio_read()]: [1 if self.tdo.value else 0]. *)
Definition gpio_read (pins : list PinWrite) : Z := if tdo_in pins then 1 else 0.

(** The body of the loop of [gpio_transfer], for [i] and the [n]
    iterations after it. *)
Fixpoint transfer_loop (n : nat) (i : Z) (tms_data tdi_data tdo_data : Z)
    (pins : list PinWrite) : Z * list PinWrite :=
  match n with
  | O => (tdo_data, pins)
  | S k =>
      let tms_bit := Z.land (Z.shiftr tms_data i) 1 in
      let tdi_bit := Z.land (Z.shiftr tdi_data i) 1 in
      let p1 := gpio_write 0 tms_bit tdi_bit pins in
      let p2 := gpio_write 1 tms_bit tdi_bit p1 in
      let tdo_bit := gpio_read p2 in
      let tdo_data' := Z.lor tdo_data (Z.shiftl tdo_bit i) in
      let p3 := gpio_write 0 tms_bit tdi_bit p2 in
      transfer_loop k (i + 1) tms_data tdi_data tdo_data' p3
  end.

(** [gpio_transfer(num_bits, tms_data, tdi_data)]; [range] of a negative
    number is empty. *)
Definition gpio_transfer (num_bits tms_data tdi_data : Z) (pins : list PinWrite)
  : Z * list PinWrite :=
  transfer_loop (Z.to_nat num_bits) 0 tms_data tdi_data 0 pins.

(** [struct.unpack('<I', b)[0]]: exactly four bytes, little-endian. *)
Definition unpack_u32 (b : list byte) : result Z :=
  if (length b =? 4)%nat then Ok (le_combine b) else Err StructError.

(** [struct.pack('<I', v)]: [v] must fit 32 bits. *)
Definition pack_u32 (v : Z) : result (list byte) :=
  if (0 <=? v) && (v <? 2 ^ 32) then Ok (le_split 4 v) else Err StructError.

(** [b[lo:hi]] for [0 <= lo]. *)
Definition slice (b : list byte) (lo hi : Z) : list byte :=
  firstn (Z.to_nat (hi - lo)) (skipn (Z.to_nat lo) b).

(** [r[lo:hi] = new] for [0 <= lo]. *)
Definition slice_assign (r : list byte) (lo hi : Z) (new : list byte) : list byte :=
  firstn (Z.to_nat lo) r ++ new ++ skipn (Z.to_nat (Z.max lo hi)) r.

(** [b'\x00' * n] *)
Definition zeros (n : Z) : list byte := repeat Byte.x00 (Z.to_nat n).

(** The [while bytes_left > 0] loop of [handle_shift]. *)
Fixpoint shift_loop (fuel : nat) (buffer : list byte) (num_bytes : Z)
    (bytes_left bits_left byte_index : Z) (res : list byte) (pins : list PinWrite)
  : result (list byte * list PinWrite) :=
  if bytes_left <=? 0 then Ok (res, pins)
  else
    match fuel with
    | O => Err OutOfFuel
    | S f =>
        if (4 <=? bytes_left) && (32 <=? bits_left) then
          let? tms := unpack_u32 (slice buffer byte_index (byte_index + 4)) in
          let? tdi :=
            unpack_u32 (slice buffer (byte_index + num_bytes) (byte_index + num_bytes + 4)) in
          let (tdo, pins1) := gpio_transfer 32 tms tdi pins in
          let? packed := pack_u32 tdo in
          shift_loop f buffer num_bytes (bytes_left - 4) (bits_left - 32) (byte_index + 4)
            (slice_assign res byte_index (byte_index + 4) packed) pins1
        else
          let tms_bytes := slice buffer byte_index (byte_index + bytes_left) in
          let tdi_bytes :=
            slice buffer (byte_index + num_bytes) (byte_index + num_bytes + bytes_left) in
          let? tms := unpack_u32 (tms_bytes ++ zeros (4 - Z.of_nat (length tms_bytes))) in
          let? tdi := unpack_u32 (tdi_bytes ++ zeros (4 - Z.of_nat (length tdi_bytes))) in
          let (tdo, pins1) := gpio_transfer bits_left tms tdi pins in
          let? packed := pack_u32 tdo in
          shift_loop f buffer num_bytes 0 bits_left byte_index
            (slice_assign res byte_index (byte_index + bytes_left)
               (firstn (Z.to_nat bytes_left) packed)) pins1
    end.

(** [handle_shift(length, buffer)]: the reply and the pins afterwards.
    [bytearray] of a negative count raises.  Every iteration of the loop
    lowers [bytes_left], so [num_bytes] iterations are enough. *)
Definition handle_shift (length : Z) (buffer : list byte) (pins : list PinWrite)
  : result (list byte * list PinWrite) :=
  let num_bytes := (length + 7) / 8 in
  let pins0 := gpio_write 0 1 1 pins in
  if num_bytes <? 0 then Err ValueError
  else
    let? rp := shift_loop (Z.to_nat num_bytes) buffer num_bytes num_bytes length 0
                 (zeros num_bytes) pins0 in
    Ok (fst rp, gpio_write 0 1 0 (snd rp)).

End Pins.

(** [XVC_VERSION.encode('ascii')] *)
Definition xvc_version : list byte :=
  list_byte_of_string "xvcServer_v1.0:2048" ++ [Byte.x0a].

(** [handle_getinfo()] *)
Definition handle_getinfo : list byte := xvc_version.

(** [handle_settck(period_data)]: the period is echoed. *)
Definition handle_settck (period_data : list byte) : list byte := period_data.

(** [safe_read(conn, n)] on a connection whose client sends the bytes
    [inp] and then closes: the [n] bytes and the rest, or [None] when the
    client closes first. *)
Definition safe_read (n : Z) (inp : list byte) : option (list byte * list byte) :=
  if Z.of_nat (length inp) <? n then None
  else Some (firstn (Z.to_nat n) inp, skipn (Z.to_nat n) inp).

(** [not b] for bytes: [None] and the empty string are false. *)
Definition falsy (r : option (list byte * list byte)) : bool :=
  match r with
  | None => true
  | Some ([], _) => true
  | Some (_ :: _, _) => false
  end.

Definition prefix_ge : list byte := list_byte_of_string "ge".
Definition prefix_se : list byte := list_byte_of_string "se".
Definition prefix_sh : list byte := list_byte_of_string "sh".

Definition bytes_eqb (a b : list byte) : bool :=
  if Stdlib.Lists.List.list_eq_dec Byte.byte_eq_dec a b then true else false.

Section Server.

Variable tdo_in : list PinWrite -> bool.

(** One iteration of the [while self.running] loop of [handle_client];
    [k] is the rest of the loop.  The result is the bytes sent to the
    client and the pins afterwards.  The loop ends when a read fails, on
    an unknown prefix, on an oversized shift, or when the handler raises
    (the [except] clause logs and the connection is closed; on the
    buffers that this loop reads, [handle_shift] does not raise). *)
Definition client_step
    (k : list byte -> list PinWrite -> result (list byte * list PinWrite))
    (inp : list byte) (pins : list PinWrite) : result (list byte * list PinWrite) :=
  match safe_read 2 inp with
  | Some (cmd_prefix, rest) =>
      if falsy (Some (cmd_prefix, rest)) then Ok ([], pins)
      else if bytes_eqb cmd_prefix prefix_ge then
        match safe_read 6 rest with
        | Some (remaining, rest1) =>
            if falsy (Some (remaining, rest1)) then Ok ([], pins)
            else
              let? more := k rest1 pins in
              Ok (handle_getinfo ++ fst more, snd more)
        | None => Ok ([], pins)
        end
      else if bytes_eqb cmd_prefix prefix_se then
        match safe_read 9 rest with
        | Some (remaining, rest1) =>
            if falsy (Some (remaining, rest1)) then Ok ([], pins)
            else
              let? more := k rest1 pins in
              Ok (handle_settck (skipn 5 remaining) ++ fst more, snd more)
        | None => Ok ([], pins)
        end
      else if bytes_eqb cmd_prefix prefix_sh then
        match safe_read 4 rest with
        | Some (remaining, rest1) =>
            if falsy (Some (remaining, rest1)) then Ok ([], pins)
            else
              match safe_read 4 rest1 with
              | Some (length_data, rest2) =>
                  if falsy (Some (length_data, rest2)) then Ok ([], pins)
                  else
                    let length := le_combine length_data in
                    let num_bytes := (length + 7) / 8 in
                    let buffer_size := num_bytes * 2 in
                    if 4096 <? buffer_size then Ok ([], pins)
                    else
                      match safe_read buffer_size rest2 with
                      | Some (buffer, rest3) =>
                          if falsy (Some (buffer, rest3)) then Ok ([], pins)
                          else
                            match handle_shift tdo_in length buffer pins with
                            | Ok (response, pins1) =>
                                let? more := k rest3 pins1 in
                                Ok (response ++ fst more, snd more)
                            | Err _ => Ok ([], pins)
                            end
                      | None => Ok ([], pins)
                      end
              | None => Ok ([], pins)
              end
        | None => Ok ([], pins)
        end
      else Ok ([], pins)
  | None => Ok ([], pins)
  end.

(** The loop of [handle_client]. *)
Fixpoint client_loop (fuel : nat) (inp : list byte) (pins : list PinWrite)
  : result (list byte * list PinWrite) :=
  match fuel with
  | O => Err OutOfFuel
  | S f => client_step (client_loop f) inp pins
  end.

(** [handle_client]: every iteration consumes at least two bytes, so one
    more iteration than there are bytes is enough. *)
Definition handle_client (inp : list byte) (pins : list PinWrite)
  : result (list byte * list PinWrite) :=
  client_loop (S (length inp)) inp pins.

(** The accept loop of [start_server] over the connections that arrive,
    one after the other: what each client is sent, and the pins at the
    end. *)
Fixpoint serve (conns : list (list byte)) (pins : list PinWrite)
  : result (list (list byte) * list PinWrite) :=
  match conns with
  | [] => Ok ([], pins)
  | inp :: more =>
      let? r := handle_client inp pins in
      let? rs := serve more (snd r) in
      Ok (fst r :: fst rs, snd rs)
  end.

End Server.

(** The level of the most recent write to TDI. *)
Fixpoint last_tdi (pins : list PinWrite) (level : bool) : bool :=
  match pins with
  | [] => level
  | mkWrite TDI l :: more => last_tdi more l
  | _ :: more => last_tdi more level
  end.

(** The pin writes of one bit of a shift: clock low, clock high, clock
    low, each time with the bit's TMS and TDI levels. *)
Definition low_writes (m d : bool) : list PinWrite :=
  [mkWrite TCK false; mkWrite TMS m; mkWrite TDI d].

Definition high_writes (m d : bool) : list PinWrite :=
  [mkWrite TCK true; mkWrite TMS m; mkWrite TDI d].

Definition bit_cycle (m d : bool) : list PinWrite :=
  low_writes m d ++ high_writes m d ++ low_writes m d.

(** The pin writes of the first [n] bits of the vectors [M] (TMS) and [V]
    (TDI), least significant bit first. *)
Definition request_cycles (M V : Z) (n : nat) : list PinWrite :=
  flat_map (fun k => bit_cycle (Z.testbit M (Z.of_nat k)) (Z.testbit V (Z.of_nat k)))
    (seq 0 n).

(** The pin history at the moment bit [i] is sampled: the writes made
    before the shift, the cycles of the bits before [i], and the low and
    high phase of bit [i]. *)
Definition sample_history (M V : Z) (pins0 : list PinWrite) (i : nat) : list PinWrite :=
  pins0 ++ request_cycles M V i ++
  low_writes (Z.testbit M (Z.of_nat i)) (Z.testbit V (Z.of_nat i)) ++
  high_writes (Z.testbit M (Z.of_nat i)) (Z.testbit V (Z.of_nat i)).

(** The TDO vector of a shift of [n] bits: bit [i] is the level sampled
    in the high phase of bit [i]. *)
Definition expected_tdo (tdo_in : list PinWrite -> bool) (M V : Z)
    (pins0 : list PinWrite) (n : nat) : Z :=
  sum_pow2 (fun i => tdo_in (sample_history M V pins0 i)) n.

(** The TMS and the TDI vector of the buffer of a shift of [nbits] bits:
    its first and its second [ceil(nbits / 8)] bytes, little-endian. *)
Definition tms_vector (nbits : Z) (buffer : list byte) : Z :=
  le_combine (slice buffer 0 ((nbits + 7) / 8)).

Definition tdi_vector (nbits : Z) (buffer : list byte) : Z :=
  le_combine (slice buffer ((nbits + 7) / 8) (2 * ((nbits + 7) / 8))).

(** A target that feeds TDI back to TDO: the TDO input reads the level
    most recently written to TDI ([init_gpio] starts TDI low). *)
Definition loopback (tdo_in : list PinWrite -> bool) : Prop :=
  forall pins, tdo_in pins = last_tdi pins false.

(** The loop-back target itself. *)
Definition loopback_target (pins : list PinWrite) : bool := last_tdi pins false.

(** The wire form of a shift command. *)
Definition shift_command (nbits : Z) (tms tdi : list byte) : list byte :=
  list_byte_of_string "shift:" ++ le_split 4 nbits ++ tms ++ tdi.

(** The commands of the protocol and their wire form. *)
Inductive Command : Type :=
  | GetInfo
  | SetTck (period : list byte)
  | Shift (nbits : Z) (tms tdi : list byte).

Definition encode (c : Command) : list byte :=
  match c with
  | GetInfo => list_byte_of_string "getinfo:"
  | SetTck period => list_byte_of_string "settck:" ++ period
  | Shift nbits tms tdi => shift_command nbits tms tdi
  end.

(** A command as the protocol has it: a period of four bytes; a shift of
    1 to 16384 bits with a TMS and a TDI vector of [ceil(nbits / 8)]
    bytes each. *)
Definition well_formed (c : Command) : Prop :=
  match c with
  | GetInfo => True
  | SetTck period => length period = 4%nat
  | Shift nbits tms tdi =>
      0 < nbits <= 16384 /\
      Z.of_nat (length tms) = (nbits + 7) / 8 /\
      Z.of_nat (length tdi) = (nbits + 7) / 8
  end.

(** What the protocol answers to a sequence of commands: the version
    line, the period, or the sampled TDO vector; and the pins
    afterwards. *)
Fixpoint session (tdo_in : list PinWrite -> bool) (cmds : list Command)
    (pins : list PinWrite) : list byte * list PinWrite :=
  match cmds with
  | [] => ([], pins)
  | GetInfo :: more =>
      let r := session tdo_in more pins in (xvc_version ++ fst r, snd r)
  | SetTck period :: more =>
      let r := session tdo_in more pins in (period ++ fst r, snd r)
  | Shift nbits tms tdi :: more =>
      let M := le_combine tms in
      let V := le_combine tdi in
      let pins0 := pins ++ low_writes true true in
      let reply :=
        le_split (length tdi) (expected_tdo tdo_in M V pins0 (Z.to_nat nbits)) in
      let pins1 := pins0 ++ request_cycles M V (Z.to_nat nbits) ++ low_writes true false in
      let r := session tdo_in more pins1 in (reply ++ fst r, snd r)
  end.

(** What a connection may send that is no command of the protocol: two
    bytes that are no known prefix, or a [shift:] of more than 16384 bits
    (a buffer of more than 4096 bytes). *)
Definition protocol_error (inp : list byte) : Prop :=
  (exists p rest,
     inp = p ++ rest /\ length p = 2%nat /\
     p <> prefix_ge /\ p <> prefix_se /\ p <> prefix_sh) \/
  (exists four nbits rest,
     inp = prefix_sh ++ four ++ le_split 4 nbits ++ rest /\ length four = 4%nat /\
     16384 < nbits < 2 ^ 32).

End XVC.
(** * Properties of the TAP walker *)

Lemma cycles_snoc n tdi tms :
  cycles n tdi tms ++ sync_writes tdi tms = cycles (S n) tdi tms.
Proof.
  induction n as [|n IH]; [reflexivity|].
  change (cycles (S n) tdi tms) with (sync_writes tdi tms ++ cycles n tdi tms).
  rewrite <- app_assoc, IH. reflexivity.
Qed.

Lemma iter_sync_frame tdo_in n tdi tms w :
  Nat.iter n (sync_ tdo_in tdi tms) w =
  set_pin_log (pin_log w ++ cycles n tdi tms) w.
Proof.
  induction n as [|n IH].
  - destruct w; unfold set_pin_log; simpl. now rewrite app_nil_r.
  - change (Nat.iter (S n) (sync_ tdo_in tdi tms) w)
      with (sync_ tdo_in tdi tms (Nat.iter n (sync_ tdo_in tdi tms) w)).
    rewrite IH, <- cycles_snoc.
    destruct w; unfold sync_, phy_sync, set_pin_log; simpl.
    now rewrite <- app_assoc.
Qed.

Lemma parse_reset_row w :
  parse_row (map FStr (split_comma "" "rs, 0, 0")) w =
  Ok (set_jtag_legs (jtag_legs w ++ [rs_leg]) w).
Proof. reflexivity. Qed.

(** C6 (as the code has it): [reset_fsm()] with the default count, from
    Run-Test/Idle, drives exactly seven [phy_sync(0,1)] cycles, each the
    writes TCK=0, TDI=0, TMS=1, TCK=1, TCK=0, puts the IR cache back to
    its sentinel -1, empties the queue and the active leg, and leaves the
    walker in Test-Logic-Reset. *)
Theorem reset_fsm_trace tdo_in (fuel : nat) (w : Walker) :
  state w = RUN_TEST_IDLE ->
  (3 <= fuel)%nat ->
  exists w',
    reset_fsm tdo_in fuel 7 w = Ok w' /\
    pin_log w' = pin_log w ++ cycles 7 false true /\
    cycles 7 false true =
      concat (repeat [mkWrite TCK false; mkWrite TDI false; mkWrite TMS true;
                      mkWrite TCK true; mkWrite TCK false] 7) /\
    last_ir_val w' = -1 /\
    jtag_legs w' = [] /\
    cur_leg w' = None /\
    jtag_results w' = [] /\
    state w' = TEST_LOGIC_RESET.
Proof.
  intros Hst Hfuel.
  destruct fuel as [|[|[|f]]]; try lia.
  destruct w as [st legs cur ro dp tv res rd lir trn devs pins].
  simpl in Hst. subst st.
  unfold reset_fsm, parse_rows, parse_each.
  rewrite parse_reset_row.
  cbn. change (Pos.to_nat 7) with 7%nat.
  rewrite iter_sync_frame.
  eexists. split; [reflexivity|].
  cbn. repeat split; reflexivity.
Qed.

Lemma reset_fsm_trace_witness :
  exists w',
    reset_fsm (fun _ => false) 3 7 init_walker = Ok w' /\
    pin_log w' = pin_log init_walker ++ cycles 7 false true /\
    cycles 7 false true =
      concat (repeat [mkWrite TCK false; mkWrite TDI false; mkWrite TMS true;
                      mkWrite TCK true; mkWrite TCK false] 7) /\
    last_ir_val w' = -1 /\
    jtag_legs w' = [] /\
    cur_leg w' = None /\
    jtag_results w' = [] /\
    state w' = TEST_LOGIC_RESET.
Proof.
  apply (reset_fsm_trace (fun _ => false) 3 init_walker); [reflexivity | lia].
Defined.

(** C6, the end state as the claim has it: after [reset_fsm()] from the
    initial walker the state is Test-Logic-Reset, not Run-Test/Idle. *)
Lemma reset_fsm_end_state_counterexample :
  exists w',
    reset_fsm (fun _ => false) 3 7 init_walker = Ok w' /\
    state w' = TEST_LOGIC_RESET /\
    state w' <> RUN_TEST_IDLE.
Proof.
  eexists. split; [vm_compute; reflexivity|].
  split; [reflexivity | discriminate].
Qed.

Lemma is_bit_cases c : is_bit c = true -> c = PyStr.chr0 \/ c = PyStr.chr1.
Proof.
  unfold is_bit. intros H. apply orb_true_iff in H.
  destruct H as [H|H]; apply Ascii.eqb_eq in H; auto.
Qed.

Lemma is_bit_bit_char b : is_bit (bit_char b) = true.
Proof. now destruct b. Qed.

Lemma is_one_bit_char b : is_one (bit_char b) = b.
Proof. now destruct b. Qed.

Lemma rstrip_bits s : all_bits s = true -> PyStr.rstrip s = s.
Proof.
  induction s as [|c r IH]; [reflexivity|].
  simpl. intros H. apply andb_true_iff in H. destruct H as [Hc Hr].
  rewrite (IH Hr). destruct r as [|c' r'].
  - destruct (is_bit_cases c Hc) as [-> | ->]; reflexivity.
  - reflexivity.
Qed.

Lemma strip_bits s : all_bits s = true -> PyStr.strip s = s.
Proof.
  intros H. unfold PyStr.strip.
  destruct s as [|c r]; [reflexivity|].
  assert (Hl : PyStr.lstrip (String c r) = String c r).
  { simpl in H. apply andb_true_iff in H. destruct H as [Hc _].
    destruct (is_bit_cases c Hc) as [-> | ->]; reflexivity. }
  rewrite Hl. now apply rstrip_bits.
Qed.

Lemma digits_bits s : forall acc,
  all_bits s = true ->
  PyStr.digits 2 acc true s = Some (acc * 2 ^ Z.of_nat (String.length s) + vect_val s).
Proof.
  induction s as [|c r IH]; intros acc H.
  - simpl. f_equal. lia.
  - simpl in H. apply andb_true_iff in H. destruct H as [Hc Hr].
    assert (Hstep : PyStr.digits 2 acc true (String c r) =
                    PyStr.digits 2 (acc * 2 + b2z (is_one c)) true r).
    { destruct (is_bit_cases c Hc) as [-> | ->]; reflexivity. }
    rewrite Hstep, (IH _ Hr).
    f_equal. cbn [String.length vect_val].
    rewrite Nat2Z.inj_succ, Z.pow_succ_r by lia. ring.
Qed.

Lemma int2_bits s :
  all_bits s = true -> s <> EmptyString -> int2 s = Ok (vect_val s).
Proof.
  intros H Hne. unfold int2, PyStr.int. rewrite (strip_bits s H).
  destruct s as [|c r]; [congruence|].
  pose proof H as H'. simpl in H'. apply andb_true_iff in H'. destruct H' as [Hc Hr].
  assert (Hd : forall acc, PyStr.digits 2 acc false (String c r) =
                           PyStr.digits 2 (acc * 2 + b2z (is_one c)) true r).
  { intros acc. destruct (is_bit_cases c Hc) as [-> | ->]; reflexivity. }
  assert (Hu : PyStr.unsigned_lit 2 (String c r) = PyStr.digits 2 0 false (String c r)).
  { destruct r as [|p r']; [reflexivity|].
    simpl in Hr. apply andb_true_iff in Hr. destruct Hr as [Hp _].
    destruct (is_bit_cases c Hc) as [-> | ->];
      destruct (is_bit_cases p Hp) as [-> | ->]; reflexivity. }
  assert (Hsign : (if Ascii.eqb c "-" then option_map Z.opp (PyStr.unsigned_lit 2 r)
                   else if Ascii.eqb c "+" then PyStr.unsigned_lit 2 r
                   else PyStr.unsigned_lit 2 (String c r)) =
                  PyStr.unsigned_lit 2 (String c r)).
  { destruct (is_bit_cases c Hc) as [-> | ->]; reflexivity. }
  rewrite Hsign, Hu, Hd, (digits_bits r _ Hr).
  reflexivity.
Qed.

Lemma take_full s : PyStr.take (String.length s) s = s.
Proof. induction s as [|c r IH]; simpl; [reflexivity | now rewrite IH]. Qed.

Lemma take_length s : forall m, (m <= String.length s)%nat -> String.length (PyStr.take m s) = m.
Proof.
  induction s as [|c r IH]; intros [|m] H; simpl in *; try reflexivity; try lia.
  rewrite IH; [reflexivity | lia].
Qed.

Lemma init_take s : forall m,
  (S m <= String.length s)%nat -> PyStr.init (PyStr.take (S m) s) = PyStr.take m s.
Proof.
  induction s as [|c r IH]; intros m H; simpl in H; [lia|].
  destruct m as [|m].
  - simpl. destruct r; reflexivity.
  - change (PyStr.take (S (S m)) (String c r)) with (String c (PyStr.take (S m) r)).
    change (PyStr.take (S m) (String c r)) with (String c (PyStr.take m r)).
    rewrite <- (IH m) by lia.
    destruct r as [|c' r']; [simpl in H; lia|]. reflexivity.
Qed.

Lemma last_some s : s <> EmptyString -> exists c, PyStr.last s = Some c.
Proof.
  induction s as [|c r IH]; intros H; [congruence|].
  destruct r as [|c' r'].
  - now exists c.
  - destruct IH as [d Hd]; [discriminate|]. exists d. exact Hd.
Qed.

Lemma length_one s : String.length s = 1%nat -> exists c, s = String c EmptyString.
Proof.
  destruct s as [|c [|c' r]]; simpl; intros H; try lia. now exists c.
Qed.

Lemma append_empty_r s : append s EmptyString = s.
Proof.
  induction s as [|c r IH]; [reflexivity|].
  change (String c (append r EmptyString) = String c r). now rewrite IH.
Qed.

(** ** One scan leg *)

Section ScanLeg.

Variable tdo_in : list PinWrite -> bool.

Lemma steps_add n m w :
  steps tdo_in (n + m) w = let? w1 := steps tdo_in n w in steps tdo_in m w1.
Proof.
  revert w. induction n as [|n IH]; intros w; simpl; [reflexivity|].
  destruct (jtag_step tdo_in w); simpl; auto.
Qed.

Lemma steps_snoc n w w1 :
  steps tdo_in n w = Ok w1 ->
  steps tdo_in (S n) w = jtag_step tdo_in w1.
Proof.
  intros H. rewrite <- Nat.add_1_r, steps_add, H. simpl.
  destruct (jtag_step tdo_in w1); reflexivity.
Qed.

Lemma step_shift_more k bits tag legs ro dp tv res rd lir trn devs pins c :
  scannable k = true ->
  (2 <= String.length bits)%nat ->
  PyStr.last bits = Some c ->
  jtag_step tdo_in
    (mkWalker SHIFT legs (Some (mkLeg k bits tag)) ro dp tv res rd lir trn devs pins) =
  Ok (mkWalker SHIFT legs (Some (mkLeg k (PyStr.init bits) tag)) ro dp
        (String (bit_char (tdo_in pins)) tv) res rd lir trn devs
        (pins ++ sync_writes (is_one c) false)).
Proof.
  intros Hk Hlen Hlast.
  assert (Hlt : (1 <? PyStr.len bits) = true).
  { unfold PyStr.len. apply Z.ltb_lt. lia. }
  destruct k; try discriminate Hk;
    cbv beta iota delta [jtag_step state cur_leg leg_kind leg_bits leg_tag];
    rewrite Hlt, Hlast; reflexivity.
Qed.

Lemma step_shift_last k c tag legs ro dp tv res rd lir trn devs pins :
  scannable k = true ->
  jtag_step tdo_in
    (mkWalker SHIFT legs (Some (mkLeg k (String c EmptyString) tag)) ro dp tv res rd lir trn
       devs pins) =
  Ok (mkWalker EXIT1 legs None ro dp (String (bit_char (tdo_in pins)) tv) res rd lir trn devs
        (pins ++ sync_writes (is_one c) true)).
Proof.
  intros Hk. destruct k; try discriminate Hk; reflexivity.
Qed.

Lemma sample_at_steps i w wi :
  steps tdo_in i w = Ok wi -> sample_at tdo_in w i = tdo_in (pin_log wi).
Proof. intros H. unfold sample_at. now rewrite H. Qed.

(** After [i] shift steps the leg holds its first [K - i] characters and
    the accumulator has gained the [i] samples, newest first. *)
Lemma shift_prefix k bits tag legs ro dp tv res rd lir trn devs pins :
  scannable k = true ->
  forall i, (i < String.length bits)%nat ->
  exists new pins_i,
    steps tdo_in i
      (mkWalker SHIFT legs (Some (mkLeg k bits tag)) ro dp tv res rd lir trn devs pins) =
    Ok (mkWalker SHIFT legs
          (Some (mkLeg k (PyStr.take (String.length bits - i) bits) tag))
          ro dp (append new tv) res rd lir trn devs pins_i) /\
    String.length new = i /\
    all_bits new = true /\
    vect_val new =
      sum_pow2
        (sample_at tdo_in
           (mkWalker SHIFT legs (Some (mkLeg k bits tag)) ro dp tv res rd lir trn devs pins))
        i.
Proof.
  intros Hk i. induction i as [|i IH]; intros Hi.
  - exists EmptyString, pins. rewrite Nat.sub_0_r, take_full. repeat split; reflexivity.
  - destruct IH as (new & pins_i & Hsteps & Hlen & Hbits & Hval); [lia|].
    set (w0 := mkWalker SHIFT legs (Some (mkLeg k bits tag)) ro dp tv res rd lir trn devs pins)
      in *.
    set (rest := PyStr.take (String.length bits - i) bits) in *.
    assert (Hrl : String.length rest = (String.length bits - i)%nat).
    { apply take_length. lia. }
    destruct (last_some rest) as [c Hc].
    { intros E. rewrite E in Hrl. simpl in Hrl. lia. }
    exists (String (bit_char (tdo_in pins_i)) new),
           (pins_i ++ sync_writes (is_one c) false).
    split; [|split; [|split]].
    + rewrite (steps_snoc _ _ _ Hsteps).
      rewrite (step_shift_more k rest tag legs ro dp (append new tv) res rd lir trn devs
                 pins_i c Hk); [|lia|exact Hc].
      do 3 f_equal. subst rest.
      replace (String.length bits - i)%nat with (S (String.length bits - S i)) by lia.
      rewrite init_take by lia. reflexivity.
    + simpl. now rewrite Hlen.
    + simpl. now rewrite is_bit_bit_char, Hbits.
    + cbn [vect_val sum_pow2]. rewrite is_one_bit_char, Hlen, Hval.
      rewrite (sample_at_steps _ _ _ Hsteps). simpl pin_log. ring.
Qed.

(** The whole shift phase of a leg of [K >= 1] bits. *)
Lemma shift_all k bits tag legs ro dp tv res rd lir trn devs pins :
  scannable k = true ->
  (0 < String.length bits)%nat ->
  exists new pins',
    steps tdo_in (String.length bits)
      (mkWalker SHIFT legs (Some (mkLeg k bits tag)) ro dp tv res rd lir trn devs pins) =
    Ok (mkWalker EXIT1 legs None ro dp (append new tv) res rd lir trn devs pins') /\
    String.length new = String.length bits /\
    all_bits new = true /\
    vect_val new =
      sum_pow2
        (sample_at tdo_in
           (mkWalker SHIFT legs (Some (mkLeg k bits tag)) ro dp tv res rd lir trn devs pins))
        (String.length bits).
Proof.
  intros Hk Hpos.
  destruct (String.length bits) as [|n] eqn:Hlen; [lia|].
  destruct (shift_prefix k bits tag legs ro dp tv res rd lir trn devs pins Hk n)
    as (new & pins_n & Hsteps & Hnl & Hbits & Hval); [lia|].
  set (w0 := mkWalker SHIFT legs (Some (mkLeg k bits tag)) ro dp tv res rd lir trn devs pins)
    in *.
  rewrite Hlen in Hsteps.
  replace (S n - n)%nat with 1%nat in Hsteps by lia.
  destruct (length_one (PyStr.take 1 bits)) as [c Hc].
  { apply take_length. lia. }
  rewrite Hc in Hsteps.
  exists (String (bit_char (tdo_in pins_n)) new), (pins_n ++ sync_writes (is_one c) true).
  split; [|split; [|split]].
  - rewrite (steps_snoc _ _ _ Hsteps). now rewrite step_shift_last.
  - simpl. now rewrite Hnl.
  - simpl. now rewrite is_bit_bit_char, Hbits.
  - cbn [vect_val sum_pow2]. rewrite is_one_bit_char, Hnl, Hval.
    rewrite (sample_at_steps _ _ _ Hsteps). simpl pin_log. ring.
Qed.

Lemma sample_at_add n i w w' :
  steps tdo_in n w = Ok w' -> sample_at tdo_in w (n + i) = sample_at tdo_in w' i.
Proof. intros H. unfold sample_at. now rewrite steps_add, H. Qed.

Lemma sum_pow2_ext f g n :
  (forall i, (i < n)%nat -> f i = g i) -> sum_pow2 f n = sum_pow2 g n.
Proof.
  induction n as [|n IH]; intros H; [reflexivity|].
  simpl. rewrite IH, (H n) by (intros; try apply H; lia). reflexivity.
Qed.

Lemma busy_zero w : busy tdo_in 0 w.
Proof. intros j Hj. lia. Qed.

Lemma busy_step n w w1 :
  is_idle (state w) = false ->
  jtag_step tdo_in w = Ok w1 ->
  busy tdo_in n w1 ->
  busy tdo_in (S n) w.
Proof.
  intros Hw Hs Hb [|j] Hj.
  - exists w. split; [reflexivity | exact Hw].
  - destruct (Hb j) as (wj & Hj1 & Hj2); [lia|].
    exists wj. split; [|exact Hj2]. simpl. rewrite Hs. exact Hj1.
Qed.

Lemma busy_add n m w w' :
  busy tdo_in n w ->
  steps tdo_in n w = Ok w' ->
  busy tdo_in m w' ->
  busy tdo_in (n + m) w.
Proof.
  intros Hn Hs Hm j Hj.
  destruct (Nat.lt_ge_cases j n) as [Hlt|Hge].
  - now apply Hn.
  - destruct (Hm (j - n)%nat) as (wj & Hj1 & Hj2); [lia|].
    exists wj. split; [|exact Hj2].
    replace j with (n + (j - n))%nat by lia. now rewrite steps_add, Hs.
Qed.

Lemma shift_busy k bits tag legs ro dp tv res rd lir trn devs pins :
  scannable k = true ->
  busy tdo_in (String.length bits)
    (mkWalker SHIFT legs (Some (mkLeg k bits tag)) ro dp tv res rd lir trn devs pins).
Proof.
  intros Hk j Hj.
  destruct (shift_prefix k bits tag legs ro dp tv res rd lir trn devs pins Hk j Hj)
    as (new & pins_j & Hs & _).
  eexists. split; [exact Hs | reflexivity].
Qed.

(** From Exit1 to Update: directly, or through Pause and Exit2. *)
Lemma exit_to_update legs cur ro dp tv res rd lir trn devs pins :
  exists pins',
    steps tdo_in (exit_steps dp)
      (mkWalker EXIT1 legs cur ro dp tv res rd lir trn devs pins) =
    Ok (mkWalker UPDATE legs cur ro false tv res rd lir trn devs pins') /\
    busy tdo_in (exit_steps dp)
      (mkWalker EXIT1 legs cur ro dp tv res rd lir trn devs pins).
Proof.
  destruct dp; eexists; (split; [reflexivity|]).
  - eapply busy_step; [reflexivity | reflexivity |].
    eapply busy_step; [reflexivity | reflexivity |].
    eapply busy_step; [reflexivity | reflexivity |]. apply busy_zero.
  - eapply busy_step; [reflexivity | reflexivity |]. apply busy_zero.
Qed.

(** A scan leg from Select-Scan to Update: [K] shift steps between the two
    entry steps and the exit steps; the accumulator then reads the [K]
    samples with the first one in the least significant place. *)
Lemma scan_leg k bits tag legs ro dp tv res rd lir trn devs pins :
  scannable k = true ->
  (0 < String.length bits)%nat ->
  exists new pins',
    steps tdo_in (2 + String.length bits + exit_steps dp)
      (mkWalker SELECT_SCAN legs (Some (mkLeg k bits tag)) ro dp tv res rd lir trn devs pins) =
    Ok (mkWalker UPDATE legs None ro false new res rd lir trn devs pins') /\
    busy tdo_in (2 + String.length bits + exit_steps dp)
      (mkWalker SELECT_SCAN legs (Some (mkLeg k bits tag)) ro dp tv res rd lir trn devs pins) /\
    String.length new = String.length bits /\
    all_bits new = true /\
    vect_val new =
      sum_pow2
        (fun i =>
           sample_at tdo_in
             (mkWalker SELECT_SCAN legs (Some (mkLeg k bits tag)) ro dp tv res rd lir trn
                devs pins) (2 + i))
        (String.length bits).
Proof.
  intros Hk Hpos.
  set (w := mkWalker SELECT_SCAN legs (Some (mkLeg k bits tag)) ro dp tv res rd lir trn devs pins).
  set (p2 := (pins ++ sync_writes false false) ++ sync_writes false false).
  set (w2 := mkWalker SHIFT legs (Some (mkLeg k bits tag)) ro dp EmptyString res rd lir trn
               devs p2).
  assert (H2 : steps tdo_in 2 w = Ok w2) by reflexivity.
  destruct (shift_all k bits tag legs ro dp EmptyString res rd lir trn devs p2 Hk Hpos)
    as (new & p3 & Hshift & Hnl & Hbits & Hval).
  fold w2 in Hshift, Hval.
  rewrite append_empty_r in Hshift.
  destruct (exit_to_update legs None ro dp new res rd lir trn devs p3) as (p4 & Hexit & Hbx).
  exists new, p4. split; [|split; [|split; [|split]]].
  - rewrite <- Nat.add_assoc, steps_add, H2. cbn [bind].
    rewrite steps_add, Hshift. cbn [bind]. exact Hexit.
  - rewrite <- Nat.add_assoc.
    apply (busy_add 2 _ w w2); [|exact H2|].
    + eapply busy_step; [reflexivity | reflexivity |].
      eapply busy_step; [reflexivity | reflexivity |]. apply busy_zero.
    + eapply busy_add; [|exact Hshift|exact Hbx].
      apply shift_busy. exact Hk.
  - exact Hnl.
  - exact Hbits.
  - rewrite Hval. apply sum_pow2_ext. intros i _.
    symmetry. apply sample_at_add. exact H2.
Qed.

(** The Update step, by what is pending. *)
Lemma step_update_last cur ro dp new v res rd lir trn devs pins :
  int2 new = Ok v ->
  jtag_step tdo_in (mkWalker UPDATE [] cur ro dp new res rd lir trn devs pins) =
  Ok (mkWalker RUN_TEST_IDLE [] cur false dp EmptyString (res ++ [v])
        (if ro then v else rd) lir trn devs (pins ++ sync_writes false false)).
Proof.
  intros Hv. unfold jtag_step. cbn [state tdo_vect]. rewrite Hv.
  destruct ro; reflexivity.
Qed.

Lemma step_update_idle l r cur ro dp new v res rd lir trn devs pins :
  int2 new = Ok v ->
  shortcut (leg_kind l) = false ->
  jtag_step tdo_in (mkWalker UPDATE (l :: r) cur ro dp new res rd lir trn devs pins) =
  Ok (mkWalker RUN_TEST_IDLE (l :: r) cur false dp EmptyString (res ++ [v])
        (if ro then v else rd) lir trn devs (pins ++ sync_writes false false)).
Proof.
  intros Hv Hk. unfold jtag_step. cbn [state tdo_vect]. rewrite Hv.
  destruct l as [k b t]. destruct k; try discriminate Hk; destruct ro; reflexivity.
Qed.

Lemma step_update_shortcut l r cur ro dp new v res rd lir trn devs pins :
  int2 new = Ok v ->
  shortcut (leg_kind l) = true ->
  exists pins',
    jtag_step tdo_in (mkWalker UPDATE (l :: r) cur ro dp new res rd lir trn devs pins) =
    Ok (mkWalker SELECT_SCAN r (Some l) false (dp || is_irp (leg_kind l)) EmptyString
          (res ++ [v]) (if ro then v else rd) lir trn devs pins') /\
    pins' = pins ++
            match leg_kind l with
            | DR => sync_writes false true
            | _ => sync_writes false true ++ sync_writes false true
            end.
Proof.
  intros Hv Hk. unfold jtag_step. cbn [state tdo_vect]. rewrite Hv.
  destruct l as [k b t].
  destruct k; try discriminate Hk; destruct ro; destruct dp; eexists;
    (split; [reflexivity|]); cbn; rewrite <- ?app_assoc; reflexivity.
Qed.

End ScanLeg.

(** ** The claims about one leg *)

(** C1: a scan leg (DR, IR, IRP or IRD) of [K >= 1] bits that enters at
    Select-Scan reaches Update after [2 + K + exit] steps, and the Update
    step appends [Sum over i < K of tdo_i * 2^i] to [jtag_results], where
    [tdo_i] is the TDO level sampled by the [phy_sync] call of shift step
    [i]; at that step the leg still holds its first [K - i] characters, so
    the character it shifts is the leg's bit [i], counted from the least
    significant end. *)
Theorem scan_result_lsb_first tdo_in (w : Walker) (leg : Leg) :
  state w = SELECT_SCAN ->
  cur_leg w = Some leg ->
  scannable (leg_kind leg) = true ->
  (0 < String.length (leg_bits leg))%nat ->
  exists wu w',
    steps tdo_in (2 + String.length (leg_bits leg) + exit_steps (do_pause w)) w = Ok wu /\
    state wu = UPDATE /\
    jtag_step tdo_in wu = Ok w' /\
    jtag_results w' =
      jtag_results w ++
      [sum_pow2 (fun i => sample_at tdo_in w (2 + i)) (String.length (leg_bits leg))] /\
    (forall i, (i < String.length (leg_bits leg))%nat ->
       exists wi,
         steps tdo_in (2 + i) w = Ok wi /\
         state wi = SHIFT /\
         cur_leg wi =
           Some (mkLeg (leg_kind leg)
                   (PyStr.take (String.length (leg_bits leg) - i) (leg_bits leg))
                   (leg_tag leg))).
Proof.
  intros Hst Hcur Hk Hpos.
  destruct w as [st legs cur ro dp tv res rd lir trn devs pins].
  destruct leg as [k bits tag].
  cbn [state cur_leg leg_kind leg_bits leg_tag do_pause jtag_results] in *.
  subst st cur.
  destruct (scan_leg tdo_in k bits tag legs ro dp tv res rd lir trn devs pins Hk Hpos)
    as (new & pu & Hsteps & _ & Hnl & Hbits & Hval).
  assert (Hne : new <> EmptyString).
  { intros E. rewrite E in Hnl. simpl in Hnl. lia. }
  pose proof (int2_bits new Hbits Hne) as Hv.
  assert (Hupd : exists w', jtag_step tdo_in
            (mkWalker UPDATE legs None ro false new res rd lir trn devs pu) = Ok w' /\
            jtag_results w' = res ++ [vect_val new]).
  { destruct legs as [|l r].
    - eexists. split; [apply step_update_last; exact Hv | reflexivity].
    - destruct (shortcut (leg_kind l)) eqn:Hs.
      + destruct (step_update_shortcut tdo_in l r None ro false new _ res rd lir trn devs pu
                    Hv Hs) as (p' & Hstep & _).
        eexists. split; [exact Hstep | reflexivity].
      + eexists. split; [apply step_update_idle; [exact Hv | exact Hs] | reflexivity]. }
  destruct Hupd as (w' & Hstep & Hres).
  exists (mkWalker UPDATE legs None ro false new res rd lir trn devs pu), w'.
  split; [exact Hsteps|]. split; [reflexivity|]. split; [exact Hstep|].
  split; [rewrite Hres, Hval; reflexivity|].
  intros i Hi.
  set (p2 := (pins ++ sync_writes false false) ++ sync_writes false false).
  destruct (shift_prefix tdo_in k bits tag legs ro dp EmptyString res rd lir trn devs p2 Hk
              i Hi) as (newi & pi & Hsi & _).
  eexists. split.
  - rewrite steps_add.
    change (steps tdo_in 2
              (mkWalker SELECT_SCAN legs (Some (mkLeg k bits tag)) ro dp tv res rd lir trn devs
                 pins))
      with (Ok (mkWalker SHIFT legs (Some (mkLeg k bits tag)) ro dp EmptyString res rd lir trn
                  devs p2)).
    cbn [bind]. exact Hsi.
  - split; reflexivity.
Qed.

Lemma scan_result_lsb_first_witness :
  exists wu w',
    steps (fun _ => true) (2 + 3 + exit_steps false)
      (mkWalker SELECT_SCAN [] (Some (mkLeg DR "101" (FStr " "))) false false "" [] 0 (-1) 7
         [] []) = Ok wu /\
    state wu = UPDATE /\
    jtag_step (fun _ => true) wu = Ok w' /\
    jtag_results w' =
      [] ++
      [sum_pow2
         (fun i =>
            sample_at (fun _ => true)
              (mkWalker SELECT_SCAN [] (Some (mkLeg DR "101" (FStr " "))) false false "" []
                 0 (-1) 7 [] []) (2 + i)) 3] /\
    (forall i, (i < 3)%nat ->
       exists wi,
         steps (fun _ => true) (2 + i)
           (mkWalker SELECT_SCAN [] (Some (mkLeg DR "101" (FStr " "))) false false "" [] 0
              (-1) 7 [] []) = Ok wi /\
         state wi = SHIFT /\
         cur_leg wi = Some (mkLeg DR (PyStr.take (3 - i) "101") (FStr " "))).
Proof.
  apply (scan_result_lsb_first (fun _ => true)
           (mkWalker SELECT_SCAN [] (Some (mkLeg DR "101" (FStr " "))) false false "" [] 0
              (-1) 7 [] [])
           (mkLeg DR "101" (FStr " "))); [reflexivity | reflexivity | reflexivity | simpl; lia].
Defined.

(** C7 (as the code has it): with the queue [[IRP leg, DR leg]] the IRP
    leg reaches Update after [K + 7] steps; the Update step then makes
    exactly one [phy_sync(0,1)] cycle (the cycle that every shortcut makes;
    the additional wait-state cycle is made only when the next leg is IRP
    or IRD), takes the DR leg as the active leg and goes to Select-Scan.
    From the moment the IRP leg leaves Run-Test/Idle until then the walker
    is never in an idle state. *)
Theorem irp_dr_shortcut tdo_in (w : Walker) (irp dr : Leg) :
  state w = RUN_TEST_IDLE ->
  cur_leg w = None ->
  jtag_legs w = [irp; dr] ->
  leg_kind irp = IRP ->
  leg_kind dr = DR ->
  (0 < String.length (leg_bits irp))%nat ->
  exists wu w',
    steps tdo_in (String.length (leg_bits irp) + 7) w = Ok wu /\
    state wu = UPDATE /\
    jtag_legs wu = [dr] /\
    jtag_step tdo_in wu = Ok w' /\
    pin_log w' = pin_log wu ++ sync_writes false true /\
    state w' = SELECT_SCAN /\
    cur_leg w' = Some dr /\
    jtag_legs w' = [] /\
    (forall j, (2 <= j <= String.length (leg_bits irp) + 8)%nat ->
       exists wj, steps tdo_in j w = Ok wj /\ is_idle (state wj) = false).
Proof.
  intros Hst Hcur Hlegs Hki Hkd Hpos.
  destruct w as [st legs cur ro dp tv res rd lir trn devs pins].
  destruct irp as [ki bi ti]. destruct dr as [kd bd td].
  cbn [state cur_leg jtag_legs leg_kind leg_bits] in *. subst st cur legs ki kd.
  set (w0 := mkWalker RUN_TEST_IDLE [mkLeg IRP bi ti; mkLeg DR bd td] None ro dp tv res rd lir
               trn devs pins).
  set (p2 := (pins ++ sync_writes false true) ++ sync_writes false true).
  set (w2 := mkWalker SELECT_SCAN [mkLeg DR bd td] (Some (mkLeg IRP bi ti)) ro true tv res rd
               lir trn devs p2).
  assert (H2 : steps tdo_in 2 w0 = Ok w2) by reflexivity.
  destruct (scan_leg tdo_in IRP bi ti [mkLeg DR bd td] ro true tv res rd lir trn devs p2
              eq_refl Hpos) as (new & pu & Hsteps & Hbusy & Hnl & Hbits & _).
  fold w2 in Hsteps, Hbusy. cbn [exit_steps] in Hsteps, Hbusy.
  assert (Hne : new <> EmptyString).
  { intros E. rewrite E in Hnl. simpl in Hnl. lia. }
  pose proof (int2_bits new Hbits Hne) as Hv.
  destruct (step_update_shortcut tdo_in (mkLeg DR bd td) [] None ro false new _ res rd lir trn
              devs pu Hv eq_refl) as (p' & Hupd & Hp').
  cbn [leg_kind is_irp orb] in Hupd, Hp'.
  set (wu := mkWalker UPDATE [mkLeg DR bd td] None ro false new res rd lir trn devs pu) in *.
  assert (Hu : steps tdo_in (String.length bi + 7) w0 = Ok wu).
  { replace (String.length bi + 7)%nat with (2 + (2 + String.length bi + 3))%nat by lia.
    rewrite steps_add, H2. exact Hsteps. }
  eexists wu, _.
  split; [exact Hu|]. split; [reflexivity|]. split; [reflexivity|].
  split; [exact Hupd|]. split; [exact Hp'|]. split; [reflexivity|].
  split; [reflexivity|]. split; [reflexivity|].
  intros j Hj.
  destruct (Nat.lt_ge_cases j (String.length bi + 7)) as [Hlt|Hge].
  - destruct (Hbusy (j - 2)%nat) as (wj & Hj1 & Hj2); [lia|].
    exists wj. split; [|exact Hj2].
    replace j with (2 + (j - 2))%nat by lia. rewrite steps_add, H2. exact Hj1.
  - destruct (Nat.eq_dec j (String.length bi + 7)%nat) as [->|Hne7].
    + exists wu. split; [exact Hu | reflexivity].
    + replace j with (S (String.length bi + 7)) by lia.
      eexists. split; [rewrite (steps_snoc _ _ _ _ Hu); exact Hupd | reflexivity].
Qed.

Lemma irp_dr_shortcut_witness :
  exists wu w',
    steps (fun _ => false) (3 + 7)
      (mkWalker RUN_TEST_IDLE [mkLeg IRP "101" (FStr " "); mkLeg DR "11" (FStr " ")] None
         false false "" [] 0 (-1) 7 [] []) = Ok wu /\
    state wu = UPDATE /\
    jtag_legs wu = [mkLeg DR "11" (FStr " ")] /\
    jtag_step (fun _ => false) wu = Ok w' /\
    pin_log w' = pin_log wu ++ sync_writes false true /\
    state w' = SELECT_SCAN /\
    cur_leg w' = Some (mkLeg DR "11" (FStr " ")) /\
    jtag_legs w' = [] /\
    (forall j, (2 <= j <= 3 + 8)%nat ->
       exists wj,
         steps (fun _ => false) j
           (mkWalker RUN_TEST_IDLE [mkLeg IRP "101" (FStr " "); mkLeg DR "11" (FStr " ")] None
              false false "" [] 0 (-1) 7 [] []) = Ok wj /\
         is_idle (state wj) = false).
Proof.
  apply (irp_dr_shortcut (fun _ => false)
           (mkWalker RUN_TEST_IDLE [mkLeg IRP "101" (FStr " "); mkLeg DR "11" (FStr " ")] None
              false false "" [] 0 (-1) 7 [] [])
           (mkLeg IRP "101" (FStr " ")) (mkLeg DR "11" (FStr " ")));
    try reflexivity. simpl. lia.
Defined.

(** C7, the claimed wait-state cycle: on the queue [[IRP "101", DR "11"]]
    the Update step of the IRP leg adds one [phy_sync(0,1)] cycle to the
    pin trace, not the two cycles (wait-state bypass, then the transition)
    that the claim describes. *)
Lemma irp_dr_bypass_counterexample :
  exists wu w',
    steps (fun _ => false) 10
      (mkWalker RUN_TEST_IDLE [mkLeg IRP "101" (FStr " "); mkLeg DR "11" (FStr " ")] None
         false false "" [] 0 (-1) 7 [] []) = Ok wu /\
    state wu = UPDATE /\
    jtag_step (fun _ => false) wu = Ok w' /\
    state w' = SELECT_SCAN /\
    pin_log w' = pin_log wu ++ cycles 1 false true /\
    pin_log w' <> pin_log wu ++ cycles 2 false true.
Proof.
  eexists. eexists.
  split; [vm_compute; reflexivity|].
  split; [reflexivity|].
  split; [vm_compute; reflexivity|].
  split; [reflexivity|].
  split; [vm_compute; reflexivity|].
  vm_compute. intros H. apply (f_equal (@List.length PinWrite)) in H. discriminate H.
Qed.

(** ** Termination of [process_command] *)

Section Termination.

Variable tdo_in : list PinWrite -> bool.

Lemma run_to_idle_idle f w : is_idle (state w) = true -> run_to_idle tdo_in f w = Ok w.
Proof. intros H. destruct f; simpl; now rewrite H. Qed.

Lemma run_to_idle_busy f w :
  is_idle (state w) = false ->
  run_to_idle tdo_in (S f) w = let? w1 := jtag_step tdo_in w in run_to_idle tdo_in f w1.
Proof. intros H. simpl. now rewrite H. Qed.

Lemma run_to_idle_mono f : forall w w',
  run_to_idle tdo_in f w = Ok w' -> run_to_idle tdo_in (S f) w = Ok w'.
Proof.
  induction f as [|f IH]; intros w w' H.
  - simpl in *. destruct (is_idle (state w)); [exact H | discriminate].
  - destruct (is_idle (state w)) eqn:Hi.
    + rewrite run_to_idle_idle in * by exact Hi. exact H.
    + rewrite run_to_idle_busy in * by exact Hi.
      destruct (jtag_step tdo_in w) as [w1|e]; [|discriminate].
      cbn [bind] in *. now apply IH.
Qed.

Lemma run_out_of_idle_busy f w :
  is_idle (state w) = false -> run_out_of_idle tdo_in f w = Ok w.
Proof. intros H. destruct f; simpl; now rewrite H. Qed.

Lemma run_out_of_idle_step f w :
  is_idle (state w) = true ->
  run_out_of_idle tdo_in (S f) w =
  let? w1 := jtag_step tdo_in w in
  match cur_leg w1 with
  | None => Ok w1
  | Some _ => run_out_of_idle tdo_in f w1
  end.
Proof. intros H. simpl. now rewrite H. Qed.

Lemma run_out_of_idle_mono f : forall w w',
  run_out_of_idle tdo_in f w = Ok w' -> run_out_of_idle tdo_in (S f) w = Ok w'.
Proof.
  induction f as [|f IH]; intros w w' H.
  - simpl in H. destruct (is_idle (state w)) eqn:Hi; [discriminate|].
    rewrite run_out_of_idle_busy by exact Hi. exact H.
  - destruct (is_idle (state w)) eqn:Hi.
    + rewrite run_out_of_idle_step in * by exact Hi.
      destruct (jtag_step tdo_in w) as [w1|e]; [|discriminate].
      cbn [bind] in *. destruct (cur_leg w1); [now apply IH | exact H].
    + rewrite run_out_of_idle_busy in * by exact Hi. exact H.
Qed.

Lemma jtag_next_mono f w w' :
  jtag_next tdo_in f w = Ok w' -> jtag_next tdo_in (S f) w = Ok w'.
Proof.
  unfold jtag_next. destruct (is_idle (state w)).
  - destruct (jtag_legs w); [auto|].
    destruct (run_out_of_idle tdo_in f w) as [w1|e] eqn:H1; [|discriminate].
    cbn [bind]. intros H2.
    rewrite (run_out_of_idle_mono _ _ _ H1). cbn [bind].
    now apply run_to_idle_mono.
  - apply run_to_idle_mono.
Qed.

Lemma process_command_mono f : forall w w',
  process_command tdo_in f w = Ok w' -> process_command tdo_in (S f) w = Ok w'.
Proof.
  induction f as [|f IH]; intros w w' H.
  - simpl in *. destruct (jtag_legs w); [exact H | discriminate].
  - change (process_command tdo_in (S (S f)) w) with
      (match jtag_legs w with
       | [] => Ok w
       | _ :: _ => let? w1 := jtag_next tdo_in (S f) w in process_command tdo_in (S f) w1
       end).
    change (process_command tdo_in (S f) w) with
      (match jtag_legs w with
       | [] => Ok w
       | _ :: _ => let? w1 := jtag_next tdo_in f w in process_command tdo_in f w1
       end) in H.
    destruct (jtag_legs w); [exact H|].
    destruct (jtag_next tdo_in f w) as [w1|e] eqn:H1; [|discriminate].
    cbn [bind] in H. rewrite (jtag_next_mono _ _ _ H1). cbn [bind]. now apply IH.
Qed.

Lemma process_command_le f f' w w' :
  process_command tdo_in f w = Ok w' -> (f <= f')%nat -> process_command tdo_in f' w = Ok w'.
Proof.
  intros H Hle. induction Hle as [|m _ IH]; [exact H|]. now apply process_command_mono.
Qed.

Lemma run_to_idle_le f f' w w' :
  run_to_idle tdo_in f w = Ok w' -> (f <= f')%nat -> run_to_idle tdo_in f' w = Ok w'.
Proof.
  intros H Hle. induction Hle as [|m _ IH]; [exact H|]. now apply run_to_idle_mono.
Qed.

Lemma rest_from_scan_mono f w w' :
  rest_from_scan tdo_in f w = Ok w' -> rest_from_scan tdo_in (S f) w = Ok w'.
Proof.
  unfold rest_from_scan.
  destruct (run_to_idle tdo_in f w) as [w2|e] eqn:H2; [|discriminate].
  cbn [bind]. intros H. rewrite (run_to_idle_mono _ _ _ H2). cbn [bind].
  now apply process_command_mono.
Qed.

Lemma rest_from_scan_le f f' w w' :
  rest_from_scan tdo_in f w = Ok w' -> (f <= f')%nat -> rest_from_scan tdo_in f' w = Ok w'.
Proof.
  intros H Hle. induction Hle as [|m _ IH]; [exact H|]. now apply rest_from_scan_mono.
Qed.

(** The first iteration of [process_command] on an idle walker with
    pending legs is the rest of the loops of [jtag_next]. *)
Lemma process_command_enter f w w' l r :
  is_idle (state w) = true ->
  jtag_legs w = l :: r ->
  rest_from_idle tdo_in f w = Ok w' ->
  process_command tdo_in (S f) w = Ok w'.
Proof.
  intros Hi Hl H. unfold rest_from_idle in H. simpl. rewrite Hl.
  unfold jtag_next. rewrite Hi, Hl.
  destruct (run_out_of_idle tdo_in f w) as [w1|e]; [|discriminate].
  cbn [bind] in *.
  destruct (run_to_idle tdo_in f w1) as [w2|e]; [|discriminate].
  exact H.
Qed.

Lemma rest_from_idle_step f w w1 w' l :
  is_idle (state w) = true ->
  jtag_step tdo_in w = Ok w1 ->
  cur_leg w1 = Some l ->
  rest_from_idle tdo_in f w1 = Ok w' ->
  rest_from_idle tdo_in (S f) w = Ok w'.
Proof.
  intros Hi Hs Hc H. unfold rest_from_idle in *.
  rewrite run_out_of_idle_step by exact Hi. rewrite Hs. cbn [bind]. rewrite Hc.
  destruct (run_out_of_idle tdo_in f w1) as [w2|e]; [|discriminate].
  cbn [bind] in *. now apply rest_from_scan_mono.
Qed.

Lemma rest_from_idle_break f w w1 w' :
  is_idle (state w) = true ->
  jtag_step tdo_in w = Ok w1 ->
  cur_leg w1 = None ->
  rest_from_scan tdo_in f w1 = Ok w' ->
  rest_from_idle tdo_in (S f) w = Ok w'.
Proof.
  intros Hi Hs Hc H. unfold rest_from_idle.
  rewrite run_out_of_idle_step by exact Hi. rewrite Hs. cbn [bind]. rewrite Hc.
  cbn [bind]. now apply rest_from_scan_mono.
Qed.

Lemma rest_from_idle_exit f w :
  is_idle (state w) = false ->
  rest_from_idle tdo_in f w = rest_from_scan tdo_in f w.
Proof.
  intros Hi. unfold rest_from_idle. now rewrite run_out_of_idle_busy.
Qed.

Lemma run_to_idle_steps n : forall w w1 f,
  busy tdo_in n w ->
  steps tdo_in n w = Ok w1 ->
  run_to_idle tdo_in (n + f) w = run_to_idle tdo_in f w1.
Proof.
  induction n as [|n IH]; intros w w1 f Hb Hs.
  - simpl in Hs. now inversion Hs.
  - destruct (Hb 0%nat) as (w0 & H0 & Hi); [lia|].
    simpl in H0. inversion H0; subst w0.
    change (S n + f)%nat with (S (n + f)).
    rewrite run_to_idle_busy by exact Hi.
    simpl in Hs. destruct (jtag_step tdo_in w) as [w2|e] eqn:Hstep; [|discriminate].
    cbn [bind] in *. apply IH; [|exact Hs].
    intros j Hj. destruct (Hb (S j)) as (wj & Hj1 & Hj2); [lia|].
    exists wj. split; [|exact Hj2]. simpl in Hj1. now rewrite Hstep in Hj1.
Qed.

Lemma rest_from_scan_steps n f w w1 w' :
  busy tdo_in n w ->
  steps tdo_in n w = Ok w1 ->
  rest_from_scan tdo_in f w1 = Ok w' ->
  rest_from_scan tdo_in (n + f) w = Ok w'.
Proof.
  intros Hb Hs H. unfold rest_from_scan in *.
  rewrite (run_to_idle_steps n w w1 f Hb Hs).
  destruct (run_to_idle tdo_in f w1) as [w2|e]; [|discriminate].
  cbn [bind] in *. apply (process_command_le f); [exact H | lia].
Qed.

Lemma rest_from_scan_idle f w :
  is_idle (state w) = true ->
  rest_from_scan tdo_in f w = process_command tdo_in f w.
Proof. intros Hi. unfold rest_from_scan. now rewrite run_to_idle_idle. Qed.

Lemma finished_here st ro dp tv res rd lir trn devs pins :
  is_idle st = true ->
  finished res devs 0 (mkWalker st [] None ro dp tv res rd lir trn devs pins).
Proof.
  intros Hi. repeat split; try assumption.
  exists []. now rewrite app_nil_r.
Qed.

Lemma finished_more res v devs n w :
  finished (res ++ [v]) devs n w -> finished res devs (S n) w.
Proof.
  intros (H1 & H2 & H3 & H4 & new & H5 & H6).
  repeat split; try assumption.
  exists (v :: new). split; [|simpl; now rewrite H6].
  rewrite H5, <- app_assoc. reflexivity.
Qed.

Lemma bits_nonempty s : negb (String.eqb s "") = true -> (0 < String.length s)%nat.
Proof. destruct s; simpl; [discriminate | lia]. Qed.

Lemma queue_of_idle k :
  (forall l r, (length r < k)%nat -> idle_goal tdo_in l r) ->
  forall legs, (length legs <= k)%nat -> queue_goal tdo_in legs.
Proof.
  intros HB legs Hlen Hok st ro dp tv res rd lir trn devs pins Hi.
  destruct legs as [|l r].
  - exists 0%nat. eexists. split; [reflexivity|]. now apply finished_here.
  - assert (Hrti : forall lir0 pins0,
              terminates
                (fun f => process_command tdo_in f
                            (mkWalker RUN_TEST_IDLE (l :: r) None ro dp tv res rd lir0 trn devs
                               pins0))
                (finished res devs (scan_count (l :: r)))).
    { intros lir0 pins0.
      destruct (HB l r ltac:(simpl in Hlen; lia) Hok ro dp tv res rd lir0 trn devs pins0)
        as (f & w' & Hrun & Hfin).
      exists (S (S f)), w'. split; [|exact Hfin].
      eapply process_command_enter; [reflexivity | reflexivity |].
      eapply rest_from_idle_step; [reflexivity | reflexivity | reflexivity | exact Hrun]. }
    destruct st; try discriminate Hi.
    + destruct (Hrti (-1) (pins ++ sync_writes false false)) as (f & w' & Hrun & Hfin).
      exists (S (S f)), w'. split; [|exact Hfin].
      eapply process_command_enter; [reflexivity | reflexivity |].
      eapply rest_from_idle_break; [reflexivity | reflexivity | reflexivity |].
      rewrite rest_from_scan_idle by reflexivity. exact Hrun.
    + apply Hrti.
Qed.

Lemma scan_of k :
  (forall legs, (length legs <= k)%nat -> queue_goal tdo_in legs) ->
  (forall l r, (length r < k)%nat -> scan_goal tdo_in l r) ->
  forall l r, (length r <= k)%nat -> scan_goal tdo_in l r.
Proof.
  intros HA HC l r Hlen Hok Hk ro dp tv res rd lir trn devs pins.
  destruct l as [kd bits tag]. cbn [leg_kind] in Hk.
  assert (Hparts : (0 < String.length bits)%nat /\ legs_ok r = true).
  { cbn [legs_ok leg_kind leg_bits] in Hok.
    apply andb_true_iff in Hok. destruct Hok as [Hb Hr]. split; [|exact Hr].
    destruct kd; try discriminate Hk; now apply bits_nonempty. }
  destruct Hparts as [Hpos Hr].
  destruct (scan_leg tdo_in kd bits tag r ro dp tv res rd lir trn devs pins Hk Hpos)
    as (new & pu & Hsteps & Hbusy & Hnl & Hbits & _).
  set (T := (2 + String.length bits + exit_steps dp)%nat) in *.
  set (w := mkWalker SELECT_SCAN r (Some (mkLeg kd bits tag)) ro dp tv res rd lir trn devs pins)
    in *.
  set (wu := mkWalker UPDATE r None ro false new res rd lir trn devs pu) in *.
  assert (Hne : new <> EmptyString).
  { intros E. rewrite E in Hnl. simpl in Hnl. lia. }
  pose proof (int2_bits new Hbits Hne) as Hv.
  assert (Hcount : scan_count (mkLeg kd bits tag :: r) = S (scan_count r)).
  { cbn [scan_count leg_kind]. now rewrite Hk. }
  rewrite Hcount.
  assert (Hnext : forall w1 w' f,
            jtag_step tdo_in wu = Ok w1 ->
            rest_from_scan tdo_in f w1 = Ok w' ->
            rest_from_scan tdo_in (S T + f) w = Ok w').
  { intros w1 w' f Hstep Hrest.
    apply (rest_from_scan_steps (S T) f w w1 w'); [| |exact Hrest].
    - replace (S T) with (T + 1)%nat by lia.
      apply (busy_add tdo_in T 1 w wu); [exact Hbusy | exact Hsteps |].
      eapply busy_step; [reflexivity | exact Hstep | apply busy_zero].
    - rewrite (steps_snoc tdo_in T w wu Hsteps). exact Hstep. }
  destruct r as [|l2 r2].
  - eexists. eexists. split.
    + eapply (Hnext _ _ 0%nat); [apply step_update_last; exact Hv|].
      rewrite rest_from_scan_idle by reflexivity. reflexivity.
    + apply (finished_more res (vect_val new)). now apply finished_here.
  - destruct (shortcut (leg_kind l2)) eqn:Hs.
    + destruct (step_update_shortcut tdo_in l2 r2 None ro false new _ res rd lir trn devs pu
                  Hv Hs) as (p' & Hstep & _).
      assert (Hk2 : scannable (leg_kind l2) = true).
      { destruct (leg_kind l2); try discriminate Hs; reflexivity. }
      destruct (HC l2 r2 ltac:(simpl in Hlen; lia) Hr Hk2 false
                  (false || is_irp (leg_kind l2)) EmptyString (res ++ [vect_val new])
                  (if ro then vect_val new else rd) lir trn devs p')
        as (f & w' & Hrun & Hfin).
      exists (S T + f)%nat, w'. split.
      * eapply Hnext; [exact Hstep | exact Hrun].
      * apply (finished_more res (vect_val new)). simpl scan_count. exact Hfin.
    + destruct (HA (l2 :: r2) Hlen Hr RUN_TEST_IDLE false false EmptyString
                  (res ++ [vect_val new]) (if ro then vect_val new else rd) lir trn devs
                  (pu ++ sync_writes false false) eq_refl)
        as (f & w' & Hrun & Hfin).
      exists (S T + f)%nat, w'. split.
      * eapply Hnext; [apply step_update_idle; [exact Hv | exact Hs]|].
        rewrite rest_from_scan_idle by reflexivity. exact Hrun.
      * apply (finished_more res (vect_val new)). exact Hfin.
Qed.

Lemma step_rs_last b t ro dp tv res rd lir trn devs pins :
  jtag_step tdo_in
    (mkWalker RUN_TEST_IDLE [] (Some (mkLeg RS b t)) ro dp tv res rd lir trn devs pins) =
  Ok (mkWalker TEST_LOGIC_RESET [] None ro dp tv res rd (-1) trn devs
        (pins ++ cycles (Z.to_nat trn) false true)).
Proof.
  unfold jtag_step. cbn [state cur_leg leg_kind tms_reset_num].
  rewrite iter_sync_frame. reflexivity.
Qed.

Lemma step_rs_next b t l2 r2 ro dp tv res rd lir trn devs pins :
  jtag_step tdo_in
    (mkWalker RUN_TEST_IDLE (l2 :: r2) (Some (mkLeg RS b t)) ro dp tv res rd lir trn devs pins) =
  Ok (mkWalker TEST_LOGIC_RESET r2 (Some l2) ro dp tv res rd (-1) trn devs
        (pins ++ cycles (Z.to_nat trn) false true)).
Proof.
  unfold jtag_step. cbn [state cur_leg leg_kind tms_reset_num].
  rewrite iter_sync_frame. reflexivity.
Qed.

Lemma idle_of k :
  (forall l r, (length r <= k)%nat -> scan_goal tdo_in l r) ->
  (forall l r, (length r < k)%nat -> idle_goal tdo_in l r) ->
  forall l r, (length r <= k)%nat -> idle_goal tdo_in l r.
Proof.
  intros HC HB l r Hlen Hok ro dp tv res rd lir trn devs pins.
  destruct l as [kd bits tag].
  assert (Hscan : scannable kd = true ->
            forall ro1 dp1 pins1,
              jtag_step tdo_in
                (mkWalker RUN_TEST_IDLE r (Some (mkLeg kd bits tag)) ro dp tv res rd lir trn
                   devs pins) =
              Ok (mkWalker SELECT_SCAN r (Some (mkLeg kd bits tag)) ro1 dp1 tv res rd lir trn
                    devs pins1) ->
              terminates
                (fun f => rest_from_idle tdo_in f
                            (mkWalker RUN_TEST_IDLE r (Some (mkLeg kd bits tag)) ro dp tv res rd
                               lir trn devs pins))
                (finished res devs (scan_count (mkLeg kd bits tag :: r)))).
  { intros Hk ro1 dp1 pins1 Hstep.
    destruct (HC (mkLeg kd bits tag) r Hlen Hok Hk ro1 dp1 tv res rd lir trn devs pins1)
      as (f & w' & Hrun & Hfin).
    exists (S f), w'. split; [|exact Hfin].
    eapply rest_from_idle_step; [reflexivity | exact Hstep | reflexivity |].
    rewrite rest_from_idle_exit by reflexivity. exact Hrun. }
  assert (Hr : legs_ok r = true).
  { cbn [legs_ok] in Hok. apply andb_true_iff in Hok. apply Hok. }
  destruct kd.
  - (* DR *) eapply Hscan; reflexivity.
  - (* IR *) eapply Hscan; reflexivity.
  - (* RS *)
    destruct r as [|l2 [|l3 r3]].
    + exists 1%nat. eexists. split.
      * eapply rest_from_idle_break; [reflexivity | apply step_rs_last | reflexivity |].
        rewrite rest_from_scan_idle by reflexivity. reflexivity.
      * now apply finished_here.
    + discriminate Hok.
    + destruct (HB l2 (l3 :: r3) ltac:(simpl in Hlen |- *; lia) Hr ro dp tv res rd (-1) trn
                  devs ((pins ++ cycles (Z.to_nat trn) false true) ++ sync_writes false false))
        as (f & w' & Hrun & Hfin).
      exists (S (S f)), w'. split; [|exact Hfin].
      eapply rest_from_idle_step; [reflexivity | apply step_rs_next | reflexivity |].
      eapply rest_from_idle_step; [reflexivity | reflexivity | reflexivity | exact Hrun].
  - (* DL *)
    destruct r as [|l2 r2]; [discriminate Hok|].
    destruct (HB l2 r2 ltac:(simpl in Hlen; lia) Hr ro dp tv res rd lir trn devs pins)
      as (f & w' & Hrun & Hfin).
    exists (S f), w'. split; [|exact Hfin].
    eapply rest_from_idle_step; [reflexivity | reflexivity | reflexivity | exact Hrun].
  - (* ID *)
    destruct r as [|l2 r2]; [discriminate Hok|].
    destruct (HB l2 r2 ltac:(simpl in Hlen; lia) Hr ro dp tv res rd lir trn devs
                (pins ++ sync_writes false false))
      as (f & w' & Hrun & Hfin).
    exists (S f), w'. split; [|exact Hfin].
    eapply rest_from_idle_step; [reflexivity | reflexivity | reflexivity | exact Hrun].
  - (* IRP *) eapply Hscan; reflexivity.
  - (* IRD *) eapply Hscan; reflexivity.
  - discriminate Hok.
  - discriminate Hok.
  - discriminate Hok.
Qed.

Lemma goals_below k :
  forall l r, (length r < k)%nat -> scan_goal tdo_in l r /\ idle_goal tdo_in l r.
Proof.
  induction k as [|k IH]; intros l r Hlen; [lia|].
  assert (HA : forall legs, (length legs <= k)%nat -> queue_goal tdo_in legs).
  { apply queue_of_idle. intros l0 r0 H0. apply IH. exact H0. }
  assert (HC : forall l0 r0, (length r0 <= k)%nat -> scan_goal tdo_in l0 r0).
  { apply scan_of; [exact HA|]. intros l0 r0 H0. apply IH. exact H0. }
  split.
  - apply HC. lia.
  - apply (idle_of k); [exact HC | | lia]. intros l0 r0 H0. apply IH. exact H0.
Qed.

(** From an idle state with no active leg, [process_command] returns on
    every queue that satisfies [legs_ok]: with enough fuel the model
    returns a walker with an empty queue, no active leg, an idle state and
    one more result per scan leg. *)
Lemma process_command_returns w :
  is_idle (state w) = true ->
  cur_leg w = None ->
  legs_ok (jtag_legs w) = true ->
  exists f0 w',
    (forall f, (f0 <= f)%nat -> process_command tdo_in f w = Ok w') /\
    finished (jtag_results w) (devices w) (scan_count (jtag_legs w)) w'.
Proof.
  intros Hi Hc Hok.
  destruct w as [st legs cur ro dp tv res rd lir trn devs pins].
  cbn [state cur_leg jtag_legs jtag_results devices] in *. subst cur.
  assert (HA : queue_goal tdo_in legs).
  { apply (queue_of_idle (S (length legs))); [|lia].
    intros l r H. apply (goals_below (S (length legs))). exact H. }
  destruct (HA Hok st ro dp tv res rd lir trn devs pins Hi) as (f0 & w' & Hrun & Hfin).
  exists f0, w'. split; [|exact Hfin].
  intros f Hle. now apply (process_command_le f0).
Qed.

End Termination.

(** ** A reset followed by exactly one leg *)

Lemma stuck_in_reset tdo_in l ro dp tv res rd lir trn devs pins : forall f,
  run_out_of_idle tdo_in f
    (mkWalker TEST_LOGIC_RESET [] (Some l) ro dp tv res rd lir trn devs pins) =
  Err OutOfFuel.
Proof.
  induction f as [|f IH]; [reflexivity|].
  rewrite run_out_of_idle_step by reflexivity. exact IH.
Qed.

Lemma parse_rs_dr :
  parse_each rs_dr_rows
    (set_jtag_results [] (set_cur_leg None (set_jtag_legs [] init_walker))) =
  Ok (mkWalker RUN_TEST_IDLE rs_dr_legs None false false "" [] 0 (-1) 7 [] []).
Proof. reflexivity. Qed.

(** C9 at the rows [rs, 0, 0; dr, 1, 1]: the queue is one that the claim
    covers, and [parse_rows] never returns on it, whatever the target
    answers and however many steps it is given: after the reset the DR leg
    is the active leg, the queue is empty, and the Test-Logic-Reset branch
    of [jtag_step] does nothing on an empty queue, so the first loop of
    [jtag_next] spins. *)
Theorem rs_then_one_leg_never_returns tdo_in fuel :
  queue_as_claimed rs_dr_legs = true /\
  parse_rows tdo_in fuel rs_dr_rows init_walker = Err OutOfFuel.
Proof.
  split; [reflexivity|].
  unfold parse_rows. rewrite parse_rs_dr. cbn [bind].
  destruct fuel as [|f]; [reflexivity|].
  change (process_command tdo_in (S f)
            (mkWalker RUN_TEST_IDLE rs_dr_legs None false false "" [] 0 (-1) 7 [] []))
    with (let? w1 := jtag_next tdo_in f
                        (mkWalker RUN_TEST_IDLE rs_dr_legs None false false "" [] 0 (-1) 7 []
                           []) in
          process_command tdo_in f w1).
  assert (H : run_out_of_idle tdo_in f
                (mkWalker RUN_TEST_IDLE rs_dr_legs None false false "" [] 0 (-1) 7 [] []) =
              Err OutOfFuel).
  { destruct f as [|[|f]]; [reflexivity | reflexivity |].
    rewrite run_out_of_idle_step by reflexivity.
    change (jtag_step tdo_in
              (mkWalker RUN_TEST_IDLE rs_dr_legs None false false "" [] 0 (-1) 7 [] []))
      with (Ok (mkWalker RUN_TEST_IDLE [mkLeg DR "1" (FStr " ")] (Some rs_leg) false false ""
                  [] 0 (-1) 7 [] [])).
    cbn [bind cur_leg].
    rewrite run_out_of_idle_step by reflexivity.
    unfold rs_leg. rewrite step_rs_next. cbn [bind cur_leg].
    apply stuck_in_reset. }
  unfold jtag_next. cbn [state is_idle jtag_legs rs_dr_legs]. rewrite H. reflexivity.
Qed.

(** ** The tag of a leg is never read *)

Section Tags.

Variable tdo_in : list PinWrite -> bool.

Lemma untag_iter_sync n tdi tms w :
  untag (Nat.iter n (sync_ tdo_in tdi tms) w) = Nat.iter n (sync_ tdo_in tdi tms) (untag w).
Proof.
  rewrite !iter_sync_frame. now destruct w.
Qed.

Lemma jtag_step_untag w :
  jtag_step tdo_in (untag w) = map_result untag (jtag_step tdo_in w).
Proof.
  destruct w as [st legs cur ro dp tv res rd lir trn devs pins].
  destruct st.
  - destruct legs as [|l r]; reflexivity.
  - destruct cur as [[k b t]|].
    + destruct k; try reflexivity.
      * unfold jtag_step.
        cbn [untag state cur_leg option_map untag_leg leg_kind tms_reset_num].
        rewrite !iter_sync_frame. destruct legs as [|l r]; reflexivity.
      * destruct legs as [|l r]; reflexivity.
      * destruct legs as [|l r]; reflexivity.
    + destruct legs as [|l r]; reflexivity.
  - reflexivity.
  - reflexivity.
  - destruct cur as [[k b t]|]; [|reflexivity].
    destruct k;
      cbv beta iota delta [jtag_step untag state cur_leg option_map untag_leg leg_kind
                             leg_bits leg_tag map_result];
      try reflexivity;
      (destruct (1 <? PyStr.len b);
       [destruct (PyStr.last b) | destruct (PyStr.head b)]; reflexivity).
  - destruct dp; reflexivity.
  - reflexivity.
  - reflexivity.
  - cbv beta iota delta [jtag_step untag state tdo_vect].
    destruct (int2 tv) as [v|e]; [|reflexivity].
    destruct ro; destruct legs as [|[k b t] r]; try reflexivity;
      destruct k; reflexivity.
Qed.

Lemma state_untag w : state (untag w) = state w.
Proof. now destruct w. Qed.

Lemma jtag_legs_untag w : jtag_legs (untag w) = map untag_leg (jtag_legs w).
Proof. now destruct w. Qed.

Lemma cur_leg_untag w : cur_leg (untag w) = option_map untag_leg (cur_leg w).
Proof. now destruct w. Qed.

Lemma run_to_idle_untag f : forall w,
  run_to_idle tdo_in f (untag w) = map_result untag (run_to_idle tdo_in f w).
Proof.
  induction f as [|f IH]; intros w; simpl; rewrite state_untag;
    destruct (is_idle (state w)); try reflexivity.
  rewrite jtag_step_untag. destruct (jtag_step tdo_in w) as [w1|e]; simpl; [apply IH | reflexivity].
Qed.

Lemma run_out_of_idle_untag f : forall w,
  run_out_of_idle tdo_in f (untag w) = map_result untag (run_out_of_idle tdo_in f w).
Proof.
  induction f as [|f IH]; intros w; simpl; rewrite state_untag;
    destruct (is_idle (state w)); try reflexivity.
  rewrite jtag_step_untag. destruct (jtag_step tdo_in w) as [w1|e]; simpl; [|reflexivity].
  rewrite cur_leg_untag. destruct (cur_leg w1); simpl; [apply IH | reflexivity].
Qed.

Lemma jtag_next_untag f w :
  jtag_next tdo_in f (untag w) = map_result untag (jtag_next tdo_in f w).
Proof.
  unfold jtag_next. rewrite state_untag, jtag_legs_untag.
  destruct (is_idle (state w)); [|apply run_to_idle_untag].
  destruct (jtag_legs w) as [|l r]; simpl; [apply jtag_step_untag|].
  rewrite run_out_of_idle_untag.
  destruct (run_out_of_idle tdo_in f w) as [w1|e]; simpl; [apply run_to_idle_untag | reflexivity].
Qed.

Lemma process_command_untag f : forall w,
  process_command tdo_in f (untag w) = map_result untag (process_command tdo_in f w).
Proof.
  induction f as [|f IH]; intros w; simpl; rewrite jtag_legs_untag;
    destruct (jtag_legs w) as [|l r]; simpl; try reflexivity.
  rewrite jtag_next_untag.
  destruct (jtag_next tdo_in f w) as [w1|e]; simpl; [apply IH | reflexivity].
Qed.

Lemma untag_push w1 w2 c1 c2 :
  untag w1 = untag w2 ->
  untag_leg c1 = untag_leg c2 ->
  untag (set_jtag_legs (jtag_legs w1 ++ [c1]) w1) =
  untag (set_jtag_legs (jtag_legs w2 ++ [c2]) w2).
Proof.
  destruct w1, w2. simpl. intros H Hc. inversion H; subst.
  rewrite !map_app. simpl. rewrite Hc. congruence.
Qed.

Lemma parse_row_untag r1 r2 w1 w2 :
  same_but_tag r1 r2 ->
  untag w1 = untag w2 ->
  map_result untag (parse_row r1 w1) = map_result untag (parse_row r2 w2).
Proof.
  unfold same_but_tag. intros Hrow Hw.
  destruct r1 as [|a1 [|b1 [|c1 t1]]]; destruct r2 as [|a2 [|b2 [|c2 t2]]];
    simpl in Hrow; try discriminate Hrow;
    try (inversion Hrow; subst; simpl; now rewrite Hw).
  inversion Hrow; subst a2 b2 c2. unfold parse_row.
  destruct (of_option IndexError (PyStr.head (PyStr.strip (PyStr.lower (field_str a1)))))
    as [c0|e]; [|reflexivity].
  cbn [bind]. destruct (Ascii.eqb c0 "#"); [simpl; now rewrite Hw|].
  destruct (field_int b1) as [len|e]; [|reflexivity]. cbn [bind].
  destruct (field_value c1) as [val|e]; [|reflexivity]. cbn [bind].
  destruct (negb (known_chain (PyStr.strip (PyStr.lower (field_str a1))))); [reflexivity|].
  set (chain := PyStr.strip (PyStr.lower (field_str a1))).
  destruct (String.eqb chain "rs");
    [cbn [bind map_result]; f_equal; now apply untag_push|].
  destruct (String.eqb chain "dl");
    [cbn [bind map_result]; f_equal; now apply untag_push|].
  destruct (String.eqb chain "id");
    [cbn [bind map_result]; f_equal; now apply untag_push|].
  destruct (if String.eqb chain "dr" then Ok DR
            else if String.eqb chain "drc" then Err NotImplemented
            else if String.eqb chain "drr" then Err NotImplemented
            else if String.eqb chain "drs" then Err NotImplemented
            else if String.eqb chain "ir" then Ok IR
            else if String.eqb chain "ird" then Ok IRD else Ok IRP) as [code|e];
    [|reflexivity].
  cbn [bind]. destruct (leg_bits_of len val) as [bits|e]; [|reflexivity].
  cbn [bind].
  destruct t1, t2; cbn [bind map_result]; f_equal; now apply untag_push.
Qed.

Lemma parse_each_untag rows1 rows2 :
  Forall2 same_but_tag rows1 rows2 ->
  forall w1 w2,
    untag w1 = untag w2 ->
    map_result untag (parse_each rows1 w1) = map_result untag (parse_each rows2 w2).
Proof.
  induction 1 as [|r1 r2 more1 more2 Hrow _ IH]; intros w1 w2 Hw.
  - simpl. now rewrite Hw.
  - simpl. pose proof (parse_row_untag r1 r2 w1 w2 Hrow Hw) as H.
    destruct (parse_row r1 w1) as [a|e1]; destruct (parse_row r2 w2) as [b|e2];
      simpl in H; try discriminate H.
    + inversion H. simpl. now apply IH.
    + exact H.
Qed.

Lemma parse_rows_untag f rows1 rows2 w :
  Forall2 same_but_tag rows1 rows2 ->
  map_result untag (parse_rows tdo_in f rows1 w) =
  map_result untag (parse_rows tdo_in f rows2 w).
Proof.
  intros Hrows. unfold parse_rows.
  pose proof (parse_each_untag rows1 rows2 Hrows
                (set_jtag_results [] (set_cur_leg None (set_jtag_legs [] w)))
                (set_jtag_results [] (set_cur_leg None (set_jtag_legs [] w))) eq_refl) as H.
  destruct (parse_each rows1 _) as [a|e1]; destruct (parse_each rows2 _) as [b|e2];
    simpl in H; try discriminate H.
  - inversion H as [Hab]. cbn [bind].
    rewrite <- !process_command_untag. now rewrite Hab.
  - exact H.
Qed.

End Tags.

(** C10: two batches of rows that differ only in the tag field drive the
    same pin writes (the five writes of each [phy_sync(tdi, tms)] call, in
    the same order) and leave the same [jtag_results]; both runs fail, and
    with the same error, or both return.  The walker itself commutes with
    erasing the tags ([jtag_step_untag]), so no step, the shortcut at
    Update included, depends on a tag. *)
Theorem tags_do_not_matter tdo_in fuel (rows1 rows2 : list (list Field)) (w : Walker) :
  Forall2 same_but_tag rows1 rows2 ->
  match parse_rows tdo_in fuel rows1 w, parse_rows tdo_in fuel rows2 w with
  | Ok w1, Ok w2 =>
      pin_log w1 = pin_log w2 /\ jtag_results w1 = jtag_results w2 /\ state w1 = state w2
  | Err e1, Err e2 => e1 = e2
  | _, _ => False
  end.
Proof.
  intros Hrows.
  pose proof (parse_rows_untag tdo_in fuel rows1 rows2 w Hrows) as H.
  destruct (parse_rows tdo_in fuel rows1 w) as [w1|e1];
    destruct (parse_rows tdo_in fuel rows2 w) as [w2|e2];
    simpl in H; try discriminate H.
  - inversion H as [Hu]. destruct w1, w2. simpl in Hu. inversion Hu. now subst.
  - now inversion H.
Qed.

Lemma tags_do_not_matter_witness :
  match parse_rows (fun _ => true) 40
          [[FStr "ir"; FInt 4; FStr "0x9"; FStr "id"]; [FStr "dr"; FInt 3; FInt 5]]
          init_walker,
        parse_rows (fun _ => true) 40
          [[FStr "ir"; FInt 4; FStr "0x9"]; [FStr "dr"; FInt 3; FInt 5; FStr "x"]]
          init_walker with
  | Ok w1, Ok w2 =>
      pin_log w1 = pin_log w2 /\ jtag_results w1 = jtag_results w2 /\ state w1 = state w2
  | Err e1, Err e2 => e1 = e2
  | _, _ => False
  end.
Proof.
  apply (tags_do_not_matter (fun _ => true) 40
           [[FStr "ir"; FInt 4; FStr "0x9"; FStr "id"]; [FStr "dr"; FInt 3; FInt 5]]
           [[FStr "ir"; FInt 4; FStr "0x9"]; [FStr "dr"; FInt 3; FInt 5; FStr "x"]]
           init_walker).
  repeat constructor.
Defined.

(** ** Chain arithmetic of [access] *)

Lemma add_is_lor_shifted a b n :
  0 <= a < 2 ^ n -> a + Z.shiftl b n = Z.lor a (Z.shiftl b n).
Proof.
  intros [Ha0 Han].
  assert (Hn : 0 <= n).
  { destruct (Z.neg_nonneg_cases n) as [Hneg|Hnn]; [|exact Hnn].
    rewrite Z.pow_neg_r in Han by exact Hneg. lia. }
  assert (Hland : Z.land a (Z.shiftl b n) = 0).
  { apply Z.bits_inj'. intros i Hi.
    rewrite Z.land_spec, Z.bits_0.
    destruct (Z.lt_ge_cases i n) as [Hlt|Hge].
    - rewrite Z.shiftl_spec_low by exact Hlt. apply andb_false_r.
    - destruct (Z.eq_dec a 0) as [->|Hne]; [now rewrite Z.bits_0|].
      rewrite (Z.bits_above_log2 a i); [reflexivity | lia |].
      apply Z.lt_le_trans with n; [|exact Hge].
      apply Z.log2_lt_pow2; lia. }
  rewrite Z.add_nocarry_lxor by exact Hland.
  now apply Z.lxor_lor.
Qed.

(** X8 (claim C3 as the code has it): in a chain of two devices with target
    device 0, the loop of [access] runs from device 1 down to device 0, so
    device 1's BYPASS opcode lands in the low [ir_len_1] bits and device
    0's opcode above it: [total_ir_val = BYPASS_1 + (opcode_0 << ir_len_1)]
    (the sum is the bitwise or when BYPASS_1 fits its IR), and
    [total_ir_len = ir_len_1 + ir_len_0]. *)
Theorem two_device_ir_value (w : Walker) (dev0 dev1 : JTAGDevice) (opcode data : Z)
    (write : bool) (reg byp : Register) :
  devices w = [dev0; dev1] ->
  addresses dev0 !! opcode = Some reg ->
  names dev1 !! "BYPASS" = Some byp ->
  0 <= ir_len dev1 ->
  exists p,
    access_plan w (FInt opcode) data 0 write = Ok p /\
    total_ir_val p = address byp + Z.shiftl opcode (ir_len dev1) /\
    total_ir_len p = ir_len dev1 + ir_len dev0 /\
    (0 <= address byp < 2 ^ ir_len dev1 ->
     total_ir_val p = Z.lor (address byp) (Z.shiftl opcode (ir_len dev1))).
Proof.
  intros Hdevs Hreg Hbyp Hlen.
  unfold access_plan. rewrite Hdevs.
  cbn [py_index length Z.of_nat Z.leb Z.compare Z.to_nat lookup list_lookup of_option bind].
  change ([dev0; dev1] !! Z.to_nat 0) with (Some dev0). cbn [of_option bind].
  rewrite Hreg. cbn [of_option bind rev enumerate_from app chain_ir Z.add Pos.add].
  change (1 =? 0) with false. change (0 =? 0) with true. cbv iota.
  rewrite Hbyp. cbn [of_option bind]. change (0 <? 0) with false. cbv iota.
  assert (Hl : (0 + ir_len dev1 <? 0) = false) by (apply Z.ltb_ge; lia).
  rewrite Hl. cbn [bind].
  eexists. split; [reflexivity|]. cbn [total_ir_val total_ir_len fst snd].
  rewrite Z.shiftl_0_r, !Z.add_0_l.
  split; [reflexivity|]. split; [reflexivity|].
  intros Hb. now rewrite <- add_is_lor_shifted by exact Hb.
Qed.

Lemma two_device_ir_value_witness :
  exists p,
    access_plan example_chain (FInt 9) (-1) 0 false = Ok p /\
    total_ir_val p = address (mkRegister "BYPASS" 15 1) + Z.shiftl 9 (ir_len example_dev1) /\
    total_ir_len p = ir_len example_dev1 + ir_len example_dev0 /\
    (0 <= address (mkRegister "BYPASS" 15 1) < 2 ^ ir_len example_dev1 ->
     total_ir_val p =
       Z.lor (address (mkRegister "BYPASS" 15 1)) (Z.shiftl 9 (ir_len example_dev1))).
Proof.
  apply (two_device_ir_value example_chain example_dev0 example_dev1 9 (-1) false
           (mkRegister "IDCODE" 9 32) (mkRegister "BYPASS" 15 1));
    [reflexivity | vm_compute; reflexivity | vm_compute; reflexivity | simpl; lia].
Defined.

(** The other order does not hold: with IR lengths 6 and 4, opcode 9 for
    device 0 and BYPASS 15 for device 1, [access] builds
    15 + (9 << 4) = 159, not 9 | (15 << 6) = 969. *)
Lemma two_device_ir_counterexample :
  exists p,
    access_plan example_chain (FInt 9) (-1) 0 false = Ok p /\
    total_ir_val p = 159 /\
    total_ir_val p <> Z.lor 9 (Z.shiftl 15 (ir_len example_dev0)).
Proof.
  eexists. split; [vm_compute; reflexivity|].
  split; [reflexivity | vm_compute; discriminate].
Qed.

(** ** The bits of a leg *)










(** ** [access] returns on a well-formed chain *)








Lemma jtag_results_set_last_ir v w : jtag_results (set_last_ir_val v w) = jtag_results w.
Proof. now destruct w. Qed.

(** Whatever the arguments, a call of [access] that returns gives back the
    last walker result, shifted right by [N - 1 - device] and masked to
    the register width. *)
Lemma access_value_shape tdo_in fuel w addr data device write v w' :
  access tdo_in fuel w addr data device write = Ok (v, w') ->
  exists plan w1 rest raw,
    access_plan w addr data device write = Ok plan /\
    parse_rows tdo_in fuel (rows plan) w = Ok w1 /\
    jtag_results w1 = rest ++ [raw] /\
    dr_pad plan = Z.of_nat (length (devices w)) - 1 - device /\
    v = Z.land (Z.shiftr raw (dr_pad plan)) (2 ^ dr_len plan - 1).
Proof.
  unfold access. intros H.
  destruct (access_plan w addr data device write) as [plan|e] eqn:Hplan; [|discriminate].
  cbn [bind] in H.
  destruct (parse_rows tdo_in fuel (rows plan) w) as [w1|e] eqn:Hrun; [|discriminate].
  cbn [bind] in H. rewrite jtag_results_set_last_ir in H.
  unfold pop_last in H.
  destruct (rev (jtag_results w1)) as [|raw r] eqn:Hrev; [discriminate|].
  cbn [bind fst snd] in H.
  destruct (dr_len plan <? 0); [discriminate|].
  inversion H; subst v w'.
  exists plan, w1, (rev r), raw. split; [reflexivity|]. split; [exact Hrun|].
  split; [|split; [|reflexivity]].
  - rewrite <- (rev_involutive (jtag_results w1)), Hrev. reflexivity.
  - unfold access_plan in Hplan.
    destruct (py_index (devices w) device); [|discriminate]. cbn [bind] in Hplan.
    destruct (match addr with
              | FStr name => _
              | FInt a => _
              end); [|discriminate]. cbn [bind] in Hplan.
    destruct (of_option KeyError _); [|discriminate]. cbn [bind] in Hplan.
    destruct (chain_ir _ _ _ _ _); [|discriminate]. cbn [bind] in Hplan.
    inversion Hplan. reflexivity.
Qed.




(** ** When an IR scan is made *)







(** * Further properties of the TAP walker *)

(** ** Queues on which the walker returns, and on which it does not *)

(** X1: from an idle state with no active leg, [process_command] returns
    on every queue in which each scan leg has at least one bit, each DL or
    ID leg is followed by a leg, and each RS leg is the last leg or is
    followed by at least two legs: with enough steps it returns, the queue
    is empty, there is no active leg, the state is idle, and
    [jtag_results] has grown by one value per scan leg of the queue. *)
Theorem walker_returns_on_ok_queues tdo_in (w : Walker) :
  is_idle (state w) = true ->
  cur_leg w = None ->
  legs_ok (jtag_legs w) = true ->
  exists f0 w',
    (forall f, (f0 <= f)%nat -> process_command tdo_in f w = Ok w') /\
    jtag_legs w' = [] /\
    cur_leg w' = None /\
    is_idle (state w') = true /\
    exists new,
      jtag_results w' = jtag_results w ++ new /\
      length new = scan_count (jtag_legs w).
Proof.
  intros Hi Hc Hok.
  destruct (process_command_returns tdo_in w Hi Hc Hok)
    as (f0 & w' & Hrun & Hl & Hcur & Hidle & _ & new & Hres & Hlen).
  exists f0, w'. repeat split; try assumption.
  exists new. split; assumption.
Qed.

Lemma walker_returns_on_ok_queues_witness :
  exists f0 w',
    (forall f, (f0 <= f)%nat ->
       process_command (fun _ => true) f
         (set_jtag_legs [mkLeg IR "1001" (FStr "id"); mkLeg DR "101" (FStr " ")]
            init_walker) = Ok w') /\
    jtag_legs w' = [] /\
    cur_leg w' = None /\
    is_idle (state w') = true /\
    exists new,
      jtag_results w' =
        jtag_results
          (set_jtag_legs [mkLeg IR "1001" (FStr "id"); mkLeg DR "101" (FStr " ")]
             init_walker) ++ new /\
      length new =
        scan_count
          (jtag_legs
             (set_jtag_legs [mkLeg IR "1001" (FStr "id"); mkLeg DR "101" (FStr " ")]
                init_walker)).
Proof.
  apply (walker_returns_on_ok_queues (fun _ => true)
           (set_jtag_legs [mkLeg IR "1001" (FStr "id"); mkLeg DR "101" (FStr " ")]
              init_walker)); reflexivity.
Defined.

(** X2: a queue that holds a reset leg followed by exactly one more leg,
    of any kind, makes [process_command] spin for ever from either idle
    state: the reset step takes the last leg out of the queue while the
    state is Test-Logic-Reset, whose branch of [jtag_step] does nothing
    on an empty queue, so the first loop of [jtag_next] never ends. *)
Theorem reset_then_last_leg_hangs tdo_in (w : Walker) (rs l : Leg) (fuel : nat) :
  is_idle (state w) = true ->
  cur_leg w = None ->
  jtag_legs w = [rs; l] ->
  leg_kind rs = RS ->
  process_command tdo_in fuel w = Err OutOfFuel.
Proof.
  intros Hi Hc Hl Hk.
  destruct w as [st legs cur ro dp tv res rd lir trn devs pins].
  destruct rs as [k b t].
  cbn [state cur_leg jtag_legs leg_kind] in *. subst cur legs k.
  assert (Hrti : forall f lir' pins',
            process_command tdo_in f
              (mkWalker RUN_TEST_IDLE [mkLeg RS b t; l] None ro dp tv res rd lir' trn devs
                 pins') = Err OutOfFuel).
  { intros f lir' pins'. destruct f as [|f]; [reflexivity|].
    cbn [process_command jtag_legs].
    assert (H : run_out_of_idle tdo_in f
                  (mkWalker RUN_TEST_IDLE [mkLeg RS b t; l] None ro dp tv res rd lir' trn
                     devs pins') = Err OutOfFuel).
    { destruct f as [|[|f]]; [reflexivity | reflexivity |].
      rewrite run_out_of_idle_step by reflexivity.
      change (jtag_step tdo_in
                (mkWalker RUN_TEST_IDLE [mkLeg RS b t; l] None ro dp tv res rd lir' trn devs
                   pins'))
        with (Ok (mkWalker RUN_TEST_IDLE [l] (Some (mkLeg RS b t)) ro dp tv res rd lir' trn
                    devs pins')).
      cbn [bind cur_leg].
      rewrite run_out_of_idle_step by reflexivity.
      rewrite step_rs_next. cbn [bind cur_leg].
      apply stuck_in_reset. }
    unfold jtag_next. cbn [state is_idle jtag_legs]. rewrite H. reflexivity. }
  destruct st; try discriminate Hi.
  - destruct fuel as [|f]; [reflexivity|].
    cbn [process_command jtag_legs].
    unfold jtag_next. cbn [state is_idle jtag_legs].
    destruct f as [|f]; [reflexivity|].
    rewrite run_out_of_idle_step by reflexivity.
    change (jtag_step tdo_in
              (mkWalker TEST_LOGIC_RESET [mkLeg RS b t; l] None ro dp tv res rd lir trn devs
                 pins))
      with (Ok (mkWalker RUN_TEST_IDLE [mkLeg RS b t; l] None ro dp tv res rd (-1) trn devs
                  (pins ++ sync_writes false false))).
    cbn [bind cur_leg].
    rewrite run_to_idle_idle by reflexivity. cbn [bind].
    apply Hrti.
  - apply Hrti.
Qed.

Lemma reset_then_last_leg_hangs_witness :
  process_command (fun _ => false) 1000
    (set_jtag_legs [rs_leg; mkLeg IR "1001" (FStr "id")] init_walker) = Err OutOfFuel.
Proof.
  apply (reset_then_last_leg_hangs (fun _ => false)
           (set_jtag_legs [rs_leg; mkLeg IR "1001" (FStr "id")] init_walker)
           rs_leg (mkLeg IR "1001" (FStr "id")) 1000); reflexivity.
Defined.

(** X3: [reset_fsm(num)] for any count: it stores [num] in
    [tms_reset_num] and drives [num] cycles [phy_sync(0,1)] ([range] of a
    count below 1 is empty, so no cycle at all), preceded by one
    [phy_sync(0,0)] cycle when the walker starts in Test-Logic-Reset; it
    ends in Test-Logic-Reset with the IR cache at -1, and forgets the
    queue, the active leg and the results it was called with. *)
Theorem reset_fsm_any_count tdo_in (fuel : nat) (num : Z) (w : Walker) :
  is_idle (state w) = true ->
  (4 <= fuel)%nat ->
  exists w',
    reset_fsm tdo_in fuel num w = Ok w' /\
    pin_log w' =
      pin_log w ++
      (match state w with TEST_LOGIC_RESET => sync_writes false false | _ => [] end) ++
      cycles (Z.to_nat num) false true /\
    tms_reset_num w' = num /\
    state w' = TEST_LOGIC_RESET /\
    last_ir_val w' = -1 /\
    jtag_legs w' = [] /\ cur_leg w' = None /\ jtag_results w' = [].
Proof.
  intros Hi Hfuel.
  destruct fuel as [|[|[|[|f]]]]; try lia.
  destruct w as [st legs cur ro dp tv res rd lir trn devs pins].
  unfold reset_fsm, parse_rows, parse_each.
  rewrite parse_reset_row.
  destruct st; try discriminate Hi.
  - cbn. rewrite iter_sync_frame.
    eexists. split; [reflexivity|].
    cbn. rewrite <- app_assoc. repeat split; reflexivity.
  - cbn. rewrite iter_sync_frame.
    eexists. split; [reflexivity|].
    cbn. repeat split; reflexivity.
Qed.

Lemma reset_fsm_any_count_witness :
  exists w',
    reset_fsm (fun _ => true) 4 3 init_walker = Ok w' /\
    pin_log w' =
      pin_log init_walker ++
      (match state init_walker with
       | TEST_LOGIC_RESET => sync_writes false false
       | _ => []
       end) ++
      cycles (Z.to_nat 3) false true /\
    tms_reset_num w' = 3 /\
    state w' = TEST_LOGIC_RESET /\
    last_ir_val w' = -1 /\
    jtag_legs w' = [] /\ cur_leg w' = None /\ jtag_results w' = [].
Proof.
  apply (reset_fsm_any_count (fun _ => true) 4 3 init_walker).
  - reflexivity.
  - lia.
Defined.

(** ** The row parser *)

Lemma parse_row_frame row w w' :
  parse_row row w = Ok w' ->
  w' = w \/ exists leg, w' = set_jtag_legs (jtag_legs w ++ [leg]) w.
Proof.
  unfold parse_row.
  destruct row as [|f0 [|f1 [|f2 rest]]]; try (intros H; inversion H; auto; fail).
  set (chain := PyStr.strip (PyStr.lower (field_str f0))).
  destruct (of_option IndexError (PyStr.head chain)) as [c0|]; cbn [bind]; [|discriminate].
  destruct (Ascii.eqb c0 "#"); [intros H; inversion H; auto|].
  destruct (field_int f1) as [len|]; cbn [bind]; [|discriminate].
  destruct (field_value f2) as [v|]; cbn [bind]; [|discriminate].
  destruct (negb (known_chain chain)); [discriminate|].
  match goal with |- bind ?e _ = _ -> _ => destruct e as [cmd|] end;
    cbn [bind]; [|discriminate].
  intros H. inversion H. right. eauto.
Qed.

Lemma parse_each_frame rows : forall w w',
  parse_each rows w = Ok w' ->
  (exists new, jtag_legs w' = jtag_legs w ++ new /\ (length new <= length rows)%nat) /\
  pin_log w' = pin_log w /\ state w' = state w /\ cur_leg w' = cur_leg w /\
  jtag_results w' = jtag_results w /\ last_ir_val w' = last_ir_val w /\
  devices w' = devices w /\ tms_reset_num w' = tms_reset_num w.
Proof.
  induction rows as [|row rows IH]; intros w w' H.
  - inversion H. split; [exists []; split; [now rewrite app_nil_r|reflexivity]|].
    repeat split.
  - cbn [parse_each] in H.
    destruct (parse_row row w) as [w1|] eqn:Hrow; cbn [bind] in H; [|discriminate].
    destruct (IH _ _ H) as ((new & Hnew & Hlen) & Hp & Hs & Hc & Hr & Hl & Hd & Ht).
    destruct (parse_row_frame _ _ _ Hrow) as [->|[leg ->]].
    + split; [exists new; split; [exact Hnew|cbn [length]; lia]|].
      repeat split; assumption.
    + destruct w as [st legs cur ro dp tv res rd lir trn devs pins].
      cbn [set_jtag_legs jtag_legs pin_log state cur_leg jtag_results last_ir_val devices
             tms_reset_num] in *.
      split; [exists (leg :: new); split;
                [rewrite Hnew, <- app_assoc; reflexivity|cbn [length]; lia]|].
      repeat split; assumption.
Qed.








(** ** The pins *)

Lemma whole_nil : whole_cycles [].
Proof. exists []. reflexivity. Qed.

Lemma whole_sync tdi tms : whole_cycles (sync_writes tdi tms).
Proof. exists [(tdi, tms)]. cbn [flat_map fst snd]. now rewrite app_nil_r. Qed.

Lemma whole_app a b : whole_cycles a -> whole_cycles b -> whole_cycles (a ++ b).
Proof.
  intros [ca ->] [cb ->]. exists (ca ++ cb). now rewrite flat_map_app.
Qed.

Lemma whole_n n tdi tms : whole_cycles (cycles n tdi tms).
Proof.
  induction n as [|n IH]; [apply whole_nil|].
  cbn [cycles]. apply whole_app; [apply whole_sync|exact IH].
Qed.

Lemma whole_last new :
  whole_cycles new -> new = [] \/ exists front, new = front ++ [mkWrite TCK false].
Proof.
  intros [cyc ->]. destruct cyc as [|p cyc] using rev_ind; [left; reflexivity|].
  right. rewrite flat_map_app. cbn [flat_map]. rewrite app_nil_r.
  exists (flat_map (fun p => sync_writes (fst p) (snd p)) cyc ++
          [mkWrite TCK false; mkWrite TDI (fst p); mkWrite TMS (snd p); mkWrite TCK true]).
  unfold sync_writes. rewrite <- app_assoc. reflexivity.
Qed.

Ltac pins_grow :=
  let H := fresh "H" in
  intros H; inversion H; subst;
  cbn -[sync_writes cycles];
  eexists; split;
  [ first [ rewrite <- ?app_assoc; reflexivity | symmetry; apply app_nil_r ]
  | repeat first [ apply whole_nil | apply whole_sync | apply whole_n | apply whole_app ] ].

Section Pins.

Variable tdo_in : list PinWrite -> bool.

Lemma step_pins w w' :
  jtag_step tdo_in w = Ok w' ->
  exists new, pin_log w' = pin_log w ++ new /\ whole_cycles new.
Proof.
  destruct w as [st legs cur ro dp tv res rd lir trn devs pins].
  unfold jtag_step. cbn [state].
  destruct st.
  - cbn [jtag_legs]. destruct legs; pins_grow.
  - cbn [cur_leg]. destruct cur as [[k b t]|].
    + cbn [leg_kind]. destruct k; try pins_grow.
      * cbn [tms_reset_num]. rewrite iter_sync_frame.
        destruct legs; pins_grow.
      * destruct legs; [discriminate|]. pins_grow.
      * destruct legs; [discriminate|]. pins_grow.
    + cbn [jtag_legs]. destruct legs; pins_grow.
  - pins_grow.
  - pins_grow.
  - cbn [cur_leg]. destruct cur as [[k b t]|]; [|discriminate].
    cbn [leg_kind leg_bits].
    destruct k; try discriminate;
      (destruct (1 <? PyStr.len b);
       [ destruct (PyStr.last b); cbn [of_option bind]; [|discriminate]; pins_grow
       | destruct (PyStr.head b); cbn [of_option bind]; [|discriminate]; pins_grow ]).
  - cbn [do_pause]. destruct dp; pins_grow.
  - pins_grow.
  - pins_grow.
  - cbn [tdo_vect]. destruct (int2 tv) as [v|]; [|discriminate].
    cbn [bind]. destruct ro; cbn -[sync_writes];
      (destruct legs as [|[k b t] r]; [pins_grow|]; destruct k; pins_grow).
Qed.

Lemma steps_pins n : forall w w',
  steps tdo_in n w = Ok w' ->
  exists new, pin_log w' = pin_log w ++ new /\ whole_cycles new.
Proof.
  induction n as [|n IH]; intros w w' H.
  - inversion H. exists []. split; [now rewrite app_nil_r|apply whole_nil].
  - cbn [steps] in H. destruct (jtag_step tdo_in w) as [w1|] eqn:Hs; [|discriminate].
    cbn [bind] in H.
    destruct (step_pins _ _ Hs) as (n1 & Hp1 & Hw1).
    destruct (IH _ _ H) as (n2 & Hp2 & Hw2).
    exists (n1 ++ n2). split; [rewrite Hp2, Hp1, app_assoc; reflexivity|].
    now apply whole_app.
Qed.

(** The loops of the walker only iterate [jtag_step]. *)
Lemma run_to_idle_is_steps f : forall w w',
  run_to_idle tdo_in f w = Ok w' -> exists n, steps tdo_in n w = Ok w'.
Proof.
  induction f as [|f IH]; intros w w' H.
  - cbn [run_to_idle] in H. destruct (is_idle (state w)); [|discriminate].
    exists 0%nat. exact H.
  - cbn [run_to_idle] in H. destruct (is_idle (state w)); [exists 0%nat; exact H|].
    destruct (jtag_step tdo_in w) as [w1|] eqn:Hs; [|discriminate].
    cbn [bind] in H. destruct (IH _ _ H) as [n Hn].
    exists (S n). cbn [steps]. rewrite Hs. exact Hn.
Qed.

Lemma run_out_of_idle_is_steps f : forall w w',
  run_out_of_idle tdo_in f w = Ok w' -> exists n, steps tdo_in n w = Ok w'.
Proof.
  induction f as [|f IH]; intros w w' H.
  - cbn [run_out_of_idle] in H. destruct (is_idle (state w)); [discriminate|].
    exists 0%nat. exact H.
  - cbn [run_out_of_idle] in H. destruct (is_idle (state w)); [|exists 0%nat; exact H].
    destruct (jtag_step tdo_in w) as [w1|] eqn:Hs; [|discriminate].
    cbn [bind] in H. destruct (cur_leg w1).
    + destruct (IH _ _ H) as [n Hn]. exists (S n). cbn [steps]. rewrite Hs. exact Hn.
    + exists 1%nat. cbn [steps]. rewrite Hs. exact H.
Qed.

Lemma steps_trans n m w w1 w2 :
  steps tdo_in n w = Ok w1 -> steps tdo_in m w1 = Ok w2 ->
  steps tdo_in (n + m) w = Ok w2.
Proof. intros H1 H2. rewrite steps_add, H1. exact H2. Qed.

Lemma jtag_next_is_steps f w w' :
  jtag_next tdo_in f w = Ok w' -> exists n, steps tdo_in n w = Ok w'.
Proof.
  unfold jtag_next. destruct (is_idle (state w)).
  - destruct (jtag_legs w).
    + intros H. exists 1%nat. cbn [steps]. rewrite H. reflexivity.
    + destruct (run_out_of_idle tdo_in f w) as [w1|] eqn:H1; [|discriminate].
      cbn [bind]. intros H2.
      destruct (run_out_of_idle_is_steps _ _ _ H1) as [n Hn].
      destruct (run_to_idle_is_steps _ _ _ H2) as [m Hm].
      exists (n + m)%nat. now apply (steps_trans n m w w1).
  - apply run_to_idle_is_steps.
Qed.

Lemma process_command_is_steps f : forall w w',
  process_command tdo_in f w = Ok w' -> exists n, steps tdo_in n w = Ok w'.
Proof.
  induction f as [|f IH]; intros w w' H.
  - cbn [process_command] in H. destruct (jtag_legs w); [|discriminate].
    exists 0%nat. exact H.
  - cbn [process_command] in H. destruct (jtag_legs w); [exists 0%nat; exact H|].
    destruct (jtag_next tdo_in f w) as [w1|] eqn:H1; [|discriminate].
    cbn [bind] in H.
    destruct (jtag_next_is_steps _ _ _ H1) as [n Hn].
    destruct (IH _ _ H) as [m Hm].
    exists (n + m)%nat. now apply (steps_trans n m w w1).
Qed.

End Pins.

(** X6: whatever rows [parse_rows] is given and whatever the target
    answers, when it returns the pins have only been driven by whole
    [phy_sync] cycles (TCK low, TDI, TMS, TCK high, TCK low), so the last
    pin written, if any, is TCK going low; and the commands were carried
    out by iterating [jtag_step] from the walker with the parsed queue. *)
Theorem walker_drives_whole_cycles tdo_in (fuel : nat) (rows : list (list Field))
    (w w' : Walker) :
  parse_rows tdo_in fuel rows w = Ok w' ->
  exists new,
    pin_log w' = pin_log w ++ new /\
    whole_cycles new /\
    (new = [] \/ exists front, new = front ++ [mkWrite TCK false]).
Proof.
  unfold parse_rows. intros H.
  destruct (parse_each rows _) as [w1|] eqn:Hparse; cbn [bind] in H; [|discriminate].
  destruct (parse_each_frame _ _ _ Hparse) as (_ & Hpins & _).
  destruct (process_command_is_steps tdo_in _ _ _ H) as [n Hn].
  destruct (steps_pins tdo_in _ _ _ Hn) as (new & Hp & Hw).
  exists new. split; [|split; [exact Hw|apply whole_last; exact Hw]].
  rewrite Hp, Hpins. destruct w. reflexivity.
Qed.

Lemma walker_drives_whole_cycles_witness :
  exists new,
    pin_log
      (mkWalker RUN_TEST_IDLE [] None false false "" [1] 0 (-1) 7 []
         (sync_writes false true ++ sync_writes false false ++ sync_writes false false ++
          sync_writes true true ++ sync_writes false true ++ sync_writes false false)) =
      pin_log init_walker ++ new /\
    whole_cycles new /\
    (new = [] \/ exists front, new = front ++ [mkWrite TCK false]).
Proof.
  apply (walker_drives_whole_cycles (fun _ => true) 20 [[FStr "dr"; FInt 1; FInt 1]]
           init_walker).
  vm_compute. reflexivity.
Defined.

(** * Properties of the XVC server *)

Lemma sum_pow2_bounds f n : 0 <= sum_pow2 f n < 2 ^ Z.of_nat n.
Proof.
  induction n as [|n IH]; [simpl; lia|].
  cbn [sum_pow2]. rewrite Nat2Z.inj_succ, Z.pow_succ_r by lia.
  assert (0 < 2 ^ Z.of_nat n) by (apply Z.pow_pos_nonneg; lia).
  destruct (f n); cbn [b2z]; lia.
Qed.

Lemma testbit_sum_pow2 f n k :
  0 <= k ->
  Z.testbit (sum_pow2 f n) k = (k <? Z.of_nat n) && f (Z.to_nat k).
Proof.
  intros Hk. induction n as [|n IH].
  - cbn [sum_pow2]. rewrite Z.bits_0.
    assert (E : (k <? Z.of_nat 0) = false) by (apply Z.ltb_ge; lia).
    now rewrite E.
  - cbn [sum_pow2].
    pose proof (sum_pow2_bounds f n) as Hb.
    assert (Hadd : sum_pow2 f n + b2z (f n) * 2 ^ Z.of_nat n =
                   Z.lor (sum_pow2 f n) (Z.shiftl (b2z (f n)) (Z.of_nat n))).
    { rewrite <- add_is_lor_shifted by exact Hb.
      rewrite Z.shiftl_mul_pow2 by lia. reflexivity. }
    rewrite Hadd, Z.lor_spec, IH, Z.shiftl_spec by exact Hk.
    destruct (Z.lt_trichotomy k (Z.of_nat n)) as [Hlt|[Heq|Hgt]].
    + assert (E1 : (k <? Z.of_nat n) = true) by (apply Z.ltb_lt; lia).
      assert (E2 : (k <? Z.of_nat (S n)) = true) by (apply Z.ltb_lt; lia).
      rewrite E1, E2, Z.testbit_neg_r by lia. now rewrite orb_false_r.
    + assert (E1 : (k <? Z.of_nat n) = false) by (apply Z.ltb_ge; lia).
      assert (E2 : (k <? Z.of_nat (S n)) = true) by (apply Z.ltb_lt; lia).
      rewrite E1, E2. subst k. rewrite Z.sub_diag, Nat2Z.id.
      now destruct (f n).
    + assert (E1 : (k <? Z.of_nat n) = false) by (apply Z.ltb_ge; lia).
      assert (E2 : (k <? Z.of_nat (S n)) = false) by (apply Z.ltb_ge; lia).
      rewrite E1, E2. cbn [andb orb].
      destruct (f n); cbn [b2z]; [|apply Z.bits_0].
      destruct (k - Z.of_nat n) eqn:E; try lia. reflexivity.
Qed.

Module XVCFacts.

Import XVC.

Lemma py_bool_bit v i : 0 <= i -> py_bool (Z.land (Z.shiftr v i) 1) = Z.testbit v i.
Proof.
  intros Hi. unfold py_bool.
  change 1 with (Z.ones 1). rewrite Z.land_ones by lia.
  assert (E : Z.testbit v i = Z.testbit (Z.shiftr v i) 0)
    by (rewrite Z.shiftr_spec by lia; f_equal; lia).
  rewrite E. change (2 ^ 1) with 2.
  rewrite <- Z.bit0_mod. now destruct (Z.testbit (Z.shiftr v i) 0).
Qed.

Lemma request_cycles_snoc M V n :
  request_cycles M V (S n) =
  request_cycles M V n ++
  bit_cycle (Z.testbit M (Z.of_nat n)) (Z.testbit V (Z.of_nat n)).
Proof.
  unfold request_cycles. rewrite seq_S, flat_map_app. cbn [flat_map Nat.add].
  now rewrite app_nil_r.
Qed.

Section Transfer.

Variable tdo_in : list PinWrite -> bool.

(** One chunk: [n] bits, the chunk's bit [k] being bit [o + k] of the
    request vectors, shifted after the first [o] bits of the request. *)
Lemma transfer_loop_spec M V pins0 (o : nat) tms tdi : forall n (i : nat) acc,
  (forall k, (i <= k < i + n)%nat ->
     Z.testbit tms (Z.of_nat k) = Z.testbit M (Z.of_nat (o + k)) /\
     Z.testbit tdi (Z.of_nat k) = Z.testbit V (Z.of_nat (o + k))) ->
  transfer_loop tdo_in n (Z.of_nat i) tms tdi acc (pins0 ++ request_cycles M V (o + i)) =
  (Z.lor acc
     (Z.shiftl
        (sum_pow2 (fun k => tdo_in (sample_history M V pins0 (o + i + k))) n)
        (Z.of_nat i)),
   pins0 ++ request_cycles M V (o + i + n)).
Proof.
  induction n as [|n IH]; intros i acc Hbits.
  - cbn [transfer_loop sum_pow2]. rewrite Z.shiftl_0_l, Z.lor_0_r, Nat.add_0_r. reflexivity.
  - cbn [transfer_loop].
    destruct (Hbits i) as [Hm Hd]; [lia|].
    set (m := Z.testbit M (Z.of_nat (o + i))).
    set (d := Z.testbit V (Z.of_nat (o + i))).
    assert (Hhist : gpio_write 1 (Z.land (Z.shiftr tms (Z.of_nat i)) 1)
                      (Z.land (Z.shiftr tdi (Z.of_nat i)) 1)
                      (gpio_write 0 (Z.land (Z.shiftr tms (Z.of_nat i)) 1)
                         (Z.land (Z.shiftr tdi (Z.of_nat i)) 1)
                         (pins0 ++ request_cycles M V (o + i))) =
                    sample_history M V pins0 (o + i)).
    { unfold gpio_write, sample_history. rewrite !py_bool_bit by lia. rewrite Hm, Hd.
      fold m d. rewrite <- !app_assoc. reflexivity. }
    rewrite Hhist.
    assert (Hnext : gpio_write 0 (Z.land (Z.shiftr tms (Z.of_nat i)) 1)
                      (Z.land (Z.shiftr tdi (Z.of_nat i)) 1)
                      (sample_history M V pins0 (o + i)) =
                    pins0 ++ request_cycles M V (o + S i)).
    { unfold gpio_write, sample_history. rewrite !py_bool_bit by lia. rewrite Hm, Hd.
      fold m d. rewrite Nat.add_succ_r, request_cycles_snoc. fold m d.
      unfold bit_cycle. rewrite <- !app_assoc. reflexivity. }
    rewrite Hnext.
    replace (Z.of_nat i + 1) with (Z.of_nat (S i)) by lia.
    rewrite IH by (intros k Hk; apply Hbits; lia).
    f_equal; [|f_equal; f_equal; lia].
    apply Z.bits_inj'. intros k Hk.
    unfold gpio_read.
    rewrite !Z.lor_spec, !Z.shiftl_spec by exact Hk.
    destruct (Z.lt_ge_cases k (Z.of_nat i)) as [Hlt|Hge].
    + rewrite !(Z.testbit_neg_r _ (k - Z.of_nat i)),
        !(Z.testbit_neg_r _ (k - Z.of_nat (S i))) by lia.
      now rewrite !orb_false_r.
    + destruct (Z.eq_dec k (Z.of_nat i)) as [->|Hne].
      * rewrite (Z.testbit_neg_r _ (Z.of_nat i - Z.of_nat (S i))) by lia.
        rewrite testbit_sum_pow2 by lia. rewrite Z.sub_diag.
        change (Z.to_nat 0) with 0%nat. rewrite Nat.add_0_r.
        assert (E : (0 <? Z.of_nat (S n)) = true) by (apply Z.ltb_lt; lia).
        rewrite E. cbn [andb]. rewrite orb_false_r.
        destruct (tdo_in (sample_history M V pins0 (o + i))); [|now rewrite Z.bits_0].
        reflexivity.
      * assert (E1 : Z.testbit (if tdo_in (sample_history M V pins0 (o + i)) then 1 else 0)
                       (k - Z.of_nat i) = false).
        { destruct (tdo_in _); [|apply Z.bits_0].
          destruct (k - Z.of_nat i) eqn:E; try lia. reflexivity. }
        rewrite E1, orb_false_r. rewrite !testbit_sum_pow2 by lia.
        replace (k - Z.of_nat i <? Z.of_nat (S n))
          with (k - Z.of_nat (S i) <? Z.of_nat n)
          by (apply eq_true_iff_eq; rewrite !Z.ltb_lt; lia).
        replace (o + S i + Z.to_nat (k - Z.of_nat (S i)))%nat
          with (o + i + Z.to_nat (k - Z.of_nat i))%nat by lia.
        reflexivity.
Qed.

(** [gpio_transfer] after the first [o] bits of a request: the result has
    the sample of bit [o + k] at bit [k], and the pin writes are the
    cycles of the bits [o .. o + n - 1] of the request. *)
Lemma gpio_transfer_spec M V pins0 (o : nat) tms tdi num_bits :
  0 <= num_bits ->
  (forall k, (k < Z.to_nat num_bits)%nat ->
     Z.testbit tms (Z.of_nat k) = Z.testbit M (Z.of_nat (o + k)) /\
     Z.testbit tdi (Z.of_nat k) = Z.testbit V (Z.of_nat (o + k))) ->
  gpio_transfer tdo_in num_bits tms tdi (pins0 ++ request_cycles M V o) =
  (sum_pow2 (fun k => tdo_in (sample_history M V pins0 (o + k))) (Z.to_nat num_bits),
   pins0 ++ request_cycles M V (o + Z.to_nat num_bits)).
Proof.
  intros Hn Hbits. unfold gpio_transfer.
  pose proof (transfer_loop_spec M V pins0 o tms tdi (Z.to_nat num_bits) 0 0) as H.
  change (Z.of_nat 0) with 0 in H. rewrite !Nat.add_0_r in H.
  rewrite H by (intros k Hk; apply Hbits; lia).
  rewrite Z.shiftl_0_r, Z.lor_0_l. reflexivity.
Qed.

End Transfer.

Lemma byte_testbit_high b k : 8 <= k -> Z.testbit (byte.unsigned b) k = false.
Proof.
  intros Hk. pose proof (byte.unsigned_range b) as Hb.
  rewrite <- (Z.mod_small (byte.unsigned b) (2 ^ 8)) by lia.
  apply Z.mod_pow2_bits_high. lia.
Qed.

Lemma le_combine_skipn n : forall l,
  le_combine (skipn n l) = Z.shiftr (le_combine l) (8 * Z.of_nat n).
Proof.
  induction n as [|n IH]; intros [|h t]; cbn [skipn le_combine].
  - reflexivity.
  - change (8 * Z.of_nat 0) with 0. now rewrite Z.shiftr_0_r.
  - now rewrite Z.shiftr_0_l.
  - rewrite IH. apply Z.bits_inj'. intros k Hk.
    change (le_combine (h :: t))
      with (Z.lor (byte.unsigned h) (Z.shiftl (le_combine t) 8)).
    rewrite !Z.shiftr_spec, Z.lor_spec, Z.shiftl_spec by lia.
    rewrite byte_testbit_high by lia. cbn [orb]. f_equal. lia.
Qed.

Lemma testbit_slice B lo hi k :
  0 <= lo -> 0 <= k < 8 * (hi - lo) ->
  Z.testbit (le_combine (slice B lo hi)) k = Z.testbit (le_combine B) (8 * lo + k).
Proof.
  intros Hlo Hk. unfold slice.
  rewrite le_combine_firstn, Z.mod_pow2_bits_low by lia.
  rewrite le_combine_skipn, Z.shiftr_spec by lia. f_equal. lia.
Qed.

Lemma length_slice B lo hi :
  0 <= lo -> lo <= hi -> hi <= Z.of_nat (length B) ->
  length (slice B lo hi) = Z.to_nat (hi - lo).
Proof.
  intros Hlo Hh Hlen. unfold slice. rewrite length_firstn, length_skipn. lia.
Qed.

Lemma sum_pow2_app f a b :
  sum_pow2 f (a + b) =
  Z.lor (sum_pow2 f a) (Z.shiftl (sum_pow2 (fun k => f (a + k)%nat) b) (Z.of_nat a)).
Proof.
  apply Z.bits_inj'. intros k Hk.
  rewrite Z.lor_spec, Z.shiftl_spec, testbit_sum_pow2 by lia.
  rewrite (testbit_sum_pow2 f a) by lia.
  destruct (Z.lt_ge_cases k (Z.of_nat a)) as [Hlt|Hge].
  - rewrite Z.testbit_neg_r by lia.
    assert (E1 : (k <? Z.of_nat (a + b)) = true) by (apply Z.ltb_lt; lia).
    assert (E2 : (k <? Z.of_nat a) = true) by (apply Z.ltb_lt; lia).
    rewrite E1, E2. now rewrite orb_false_r.
  - rewrite testbit_sum_pow2 by lia.
    assert (E2 : (k <? Z.of_nat a) = false) by (apply Z.ltb_ge; lia).
    rewrite E2. cbn [andb orb].
    replace (a + Z.to_nat (k - Z.of_nat a))%nat with (Z.to_nat k) by lia.
    f_equal. apply eq_true_iff_eq. rewrite !Z.ltb_lt. lia.
Qed.

(** The value of a result buffer after [r[lo:lo + len new] = new], when
    the bytes of [r] from [lo] on are zero. *)
Lemma le_combine_slice_assign r lo hi new :
  0 <= lo -> hi = lo + Z.of_nat (length new) ->
  hi <= Z.of_nat (length r) ->
  0 <= le_combine r < 2 ^ (8 * lo) ->
  length (slice_assign r lo hi new) = length r /\
  le_combine (slice_assign r lo hi new) =
    Z.lor (le_combine r) (Z.shiftl (le_combine new) (8 * lo)).
Proof.
  intros Hlo Hhi Hlen Hsmall. unfold slice_assign.
  rewrite Z.max_r by lia. split.
  - rewrite !length_app, length_firstn, length_skipn. lia.
  - rewrite !le_combine_app, le_combine_firstn, le_combine_skipn.
    rewrite length_firstn.
    replace (Z.of_nat (Init.Nat.min (Z.to_nat lo) (length r)) * 8) with (8 * lo) by lia.
    replace (8 * Z.of_nat (Z.to_nat lo)) with (8 * lo) by lia.
    rewrite (Z.mod_small (le_combine r)) by lia.
    assert (E : Z.shiftr (le_combine r) (8 * Z.of_nat (Z.to_nat hi)) = 0).
    { rewrite Z.shiftr_div_pow2 by lia. apply Z.div_small. split; [lia|].
      eapply Z.lt_le_trans; [apply Hsmall|]. apply Z.pow_le_mono_r; lia. }
    rewrite E, Z.shiftl_0_l, Z.lor_0_r. reflexivity.
Qed.

Lemma shift_loop_done tdo_in fuel buffer nb bytes_left bits_left bi res pins :
  bytes_left <= 0 ->
  shift_loop tdo_in fuel buffer nb bytes_left bits_left bi res pins = Ok (res, pins).
Proof.
  intros H. assert (E : (bytes_left <=? 0) = true) by (apply Z.leb_le; lia).
  destruct fuel; cbn [shift_loop]; now rewrite E.
Qed.

Lemma num_bytes_bounds nbits :
  8 * ((nbits + 7) / 8) - 7 <= nbits <= 8 * ((nbits + 7) / 8).
Proof.
  pose proof (Z.div_mod (nbits + 7) 8) as H1.
  pose proof (Z.mod_pos_bound (nbits + 7) 8) as H2. lia.
Qed.

Section ShiftSpec.

Variable tdo_in : list PinWrite -> bool.
Variable nbits : Z.
Variable buffer : list byte.
Variable pins0 : list PinWrite.

Hypothesis nbits_pos : 0 <= nbits.
Hypothesis buffer_long : 2 * ((nbits + 7) / 8) <= Z.of_nat (length buffer).

Lemma chunk_bits (bi : nat) (cb : Z) (k : nat) :
  0 < cb -> Z.of_nat bi + cb <= (nbits + 7) / 8 ->
  Z.of_nat k < 8 * cb ->
  Z.testbit (le_combine (slice buffer (Z.of_nat bi) (Z.of_nat bi + cb))) (Z.of_nat k) =
    Z.testbit (tms_vector nbits buffer) (Z.of_nat (8 * bi + k)) /\
  Z.testbit (le_combine (slice buffer (Z.of_nat bi + (nbits + 7) / 8)
                           (Z.of_nat bi + (nbits + 7) / 8 + cb))) (Z.of_nat k) =
    Z.testbit (tdi_vector nbits buffer) (Z.of_nat (8 * bi + k)).
Proof.
  intros Hcb Hle Hk. unfold tms_vector, tdi_vector.
  rewrite !testbit_slice by lia. split; f_equal; lia.
Qed.

Lemma shift_loop_spec : forall fuel (bi : nat) res,
  Z.of_nat bi <= (nbits + 7) / 8 ->
  8 * Z.of_nat bi <= nbits ->
  length res = Z.to_nat ((nbits + 7) / 8) ->
  le_combine res =
    expected_tdo tdo_in (tms_vector nbits buffer) (tdi_vector nbits buffer) pins0 (8 * bi) ->
  (Z.to_nat ((nbits + 7) / 8 - Z.of_nat bi) <= fuel)%nat ->
  shift_loop tdo_in fuel buffer ((nbits + 7) / 8) ((nbits + 7) / 8 - Z.of_nat bi)
    (nbits - 8 * Z.of_nat bi) (Z.of_nat bi) res
    (pins0 ++ request_cycles (tms_vector nbits buffer) (tdi_vector nbits buffer) (8 * bi)) =
  Ok (le_split (Z.to_nat ((nbits + 7) / 8))
        (expected_tdo tdo_in (tms_vector nbits buffer) (tdi_vector nbits buffer) pins0
           (Z.to_nat nbits)),
      pins0 ++ request_cycles (tms_vector nbits buffer) (tdi_vector nbits buffer)
                 (Z.to_nat nbits)).
Proof.
  pose proof (num_bytes_bounds nbits) as Hnb.
  set (nb := (nbits + 7) / 8) in *.
  set (M := tms_vector nbits buffer). set (V := tdi_vector nbits buffer).
  assert (Hdone : forall (bi : nat) res,
            Z.of_nat bi = nb -> 8 * Z.of_nat bi <= nbits ->
            length res = Z.to_nat nb ->
            le_combine res = expected_tdo tdo_in M V pins0 (8 * bi) ->
            (res, pins0 ++ request_cycles M V (8 * bi)) =
            (le_split (Z.to_nat nb) (expected_tdo tdo_in M V pins0 (Z.to_nat nbits)),
             pins0 ++ request_cycles M V (Z.to_nat nbits))).
  { intros bi res Hbi H8 Hlen Hval.
    replace (Z.to_nat nbits) with (8 * bi)%nat by lia.
    rewrite <- Hval, <- Hlen, split_le_combine. reflexivity. }
  induction fuel as [|f IH]; intros bi res Hbi H8 Hlen Hval Hfuel.
  - rewrite shift_loop_done by lia. f_equal. apply Hdone; try assumption. lia.
  - destruct (Z.le_gt_cases (nb - Z.of_nat bi) 0) as [Hz|Hpos].
    { rewrite shift_loop_done by lia. f_equal. apply Hdone; try assumption. lia. }
    cbn [shift_loop].
    assert (E0 : (nb - Z.of_nat bi <=? 0) = false) by (apply Z.leb_gt; lia).
    rewrite E0.
    pose proof (sum_pow2_bounds
                  (fun i => tdo_in (sample_history M V pins0 i)) (8 * bi)) as Hsmall.
    fold (expected_tdo tdo_in M V pins0 (8 * bi)) in Hsmall. rewrite <- Hval in Hsmall.
    replace (Z.of_nat (8 * bi)) with (8 * Z.of_nat bi) in Hsmall by lia.
    destruct ((4 <=? nb - Z.of_nat bi) && (32 <=? nbits - 8 * Z.of_nat bi)) eqn:Efull.
    + apply andb_true_iff in Efull. destruct Efull as [E4 E32].
      apply Z.leb_le in E4. apply Z.leb_le in E32.
      unfold unpack_u32.
      rewrite !length_slice by lia.
      replace (Z.to_nat (Z.of_nat bi + 4 - Z.of_nat bi)) with 4%nat by lia.
      replace (Z.to_nat (Z.of_nat bi + nb + 4 - (Z.of_nat bi + nb))) with 4%nat by lia.
      cbn [Nat.eqb bind].
      rewrite (gpio_transfer_spec tdo_in M V pins0 (8 * bi)) by
        (try lia; intros k Hk; apply chunk_bits; lia).
      unfold pack_u32.
      pose proof (sum_pow2_bounds
                    (fun k => tdo_in (sample_history M V pins0 (8 * bi + k)))
                    (Z.to_nat 32)) as Hb.
      change (Z.of_nat (Z.to_nat 32)) with 32 in Hb.
      assert (Eb : ((0 <=? sum_pow2 (fun k => tdo_in (sample_history M V pins0 (8 * bi + k)))
                             (Z.to_nat 32)) &&
                    (sum_pow2 (fun k => tdo_in (sample_history M V pins0 (8 * bi + k)))
                       (Z.to_nat 32) <? 2 ^ 32)) = true).
      { apply andb_true_iff. split; [apply Z.leb_le|apply Z.ltb_lt]; lia. }
      rewrite Eb. cbn [bind].
      destruct (le_combine_slice_assign res (Z.of_nat bi) (Z.of_nat bi + 4)
                  (le_split 4 (sum_pow2 (fun k => tdo_in (sample_history M V pins0 (8 * bi + k)))
                                 (Z.to_nat 32)))) as [Hlen' Hval'].
      { lia. }
      { rewrite length_le_split. lia. }
      { lia. }
      { exact Hsmall. }
      replace (nb - Z.of_nat bi - 4) with (nb - Z.of_nat (bi + 4)) by lia.
      replace (nbits - 8 * Z.of_nat bi - 32) with (nbits - 8 * Z.of_nat (bi + 4)) by lia.
      replace (Z.of_nat bi + 4) with (Z.of_nat (bi + 4)) by lia.
      replace (8 * bi + Z.to_nat 32)%nat with (8 * (bi + 4))%nat by lia.
      apply IH; try lia.
      * replace (Z.of_nat (bi + 4)) with (Z.of_nat bi + 4) by lia. lia.
      * replace (Z.of_nat (bi + 4)) with (Z.of_nat bi + 4) by lia.
        rewrite Hval', Hval, le_combine_split.
        change (Z.of_nat 4 * 8) with 32.
        rewrite Z.mod_small by exact Hb.
        unfold expected_tdo.
        replace (8 * (bi + 4))%nat with (8 * bi + Z.to_nat 32)%nat by lia.
        rewrite sum_pow2_app. f_equal. f_equal. lia.
    + assert (Hcb : nb - Z.of_nat bi <= 4 /\ nbits - 8 * Z.of_nat bi < 32).
      { apply andb_false_iff in Efull.
        destruct Efull as [E|E]; [apply Z.leb_gt in E|apply Z.leb_gt in E]; lia. }
      set (cb := nb - Z.of_nat bi) in *.
      set (bl := nbits - 8 * Z.of_nat bi) in *.
      unfold unpack_u32.
      rewrite !length_app, !length_slice by lia.
      unfold zeros. rewrite !repeat_length.
      replace (Z.to_nat (Z.of_nat bi + cb - Z.of_nat bi)) with (Z.to_nat cb) by lia.
      replace (Z.to_nat (Z.of_nat bi + nb + cb - (Z.of_nat bi + nb)))
        with (Z.to_nat cb) by lia.
      replace (Z.to_nat cb + Z.to_nat (4 - Z.of_nat (Z.to_nat cb)))%nat with 4%nat by lia.
      cbn [Nat.eqb bind].
      rewrite !le_combine_app_0.
      rewrite (gpio_transfer_spec tdo_in M V pins0 (8 * bi)) by
        (try lia; intros k Hk; apply chunk_bits; lia).
      unfold pack_u32.
      pose proof (sum_pow2_bounds
                    (fun k => tdo_in (sample_history M V pins0 (8 * bi + k)))
                    (Z.to_nat bl)) as Hb.
      rewrite Z2Nat.id in Hb by lia.
      assert (Hpow : 2 ^ bl <= 2 ^ (8 * cb) /\ 2 ^ (8 * cb) <= 2 ^ 32).
      { split; apply Z.pow_le_mono_r; lia. }
      assert (Eb : ((0 <=? sum_pow2 (fun k => tdo_in (sample_history M V pins0 (8 * bi + k)))
                             (Z.to_nat bl)) &&
                    (sum_pow2 (fun k => tdo_in (sample_history M V pins0 (8 * bi + k)))
                       (Z.to_nat bl) <? 2 ^ 32)) = true).
      { apply andb_true_iff. split; [apply Z.leb_le|apply Z.ltb_lt]; lia. }
      rewrite Eb. cbn [bind].
      rewrite shift_loop_done by lia.
      destruct (le_combine_slice_assign res (Z.of_nat bi) (Z.of_nat bi + cb)
                  (firstn (Z.to_nat cb)
                     (le_split 4 (sum_pow2
                                    (fun k => tdo_in (sample_history M V pins0 (8 * bi + k)))
                                    (Z.to_nat bl))))) as [Hlen' Hval'].
      { lia. }
      { rewrite length_firstn, length_le_split. lia. }
      { lia. }
      { exact Hsmall. }
      f_equal.
      replace (Z.to_nat nbits) with (8 * bi + Z.to_nat bl)%nat by lia.
      rewrite <- Hlen, <- Hlen'.
      rewrite <- (split_le_combine (slice_assign _ _ _ _)) at 1.
      f_equal. f_equal.
      rewrite Hval', Hval, le_combine_firstn, le_combine_split.
      change (Z.of_nat 4 * 8) with 32.
      rewrite (Z.mod_small _ (2 ^ 32)) by lia.
      rewrite Z.mod_small by (rewrite Z2Nat.id by lia; lia).
      unfold expected_tdo. rewrite sum_pow2_app. f_equal. f_equal. lia.
Qed.

End ShiftSpec.

Lemma handle_shift_spec tdo_in nbits buffer pins :
  0 <= nbits ->
  2 * ((nbits + 7) / 8) <= Z.of_nat (length buffer) ->
  handle_shift tdo_in nbits buffer pins =
  Ok (le_split (Z.to_nat ((nbits + 7) / 8))
        (expected_tdo tdo_in (tms_vector nbits buffer) (tdi_vector nbits buffer)
           (gpio_write 0 1 1 pins) (Z.to_nat nbits)),
      gpio_write 0 1 0
        (gpio_write 0 1 1 pins ++
         request_cycles (tms_vector nbits buffer) (tdi_vector nbits buffer)
           (Z.to_nat nbits))).
Proof.
  intros Hpos Hlong. unfold handle_shift.
  assert (Hnb : 0 <= (nbits + 7) / 8) by (apply Z.div_pos; lia).
  assert (E : ((nbits + 7) / 8 <? 0) = false) by (apply Z.ltb_ge; lia).
  rewrite E.
  pose proof (shift_loop_spec tdo_in nbits buffer (gpio_write 0 1 1 pins) Hpos Hlong
                (Z.to_nat ((nbits + 7) / 8)) 0 (zeros ((nbits + 7) / 8))) as H.
  change (Z.of_nat 0) with 0 in H. change (8 * 0)%nat with 0%nat in H.
  change (8 * 0) with 0 in H. rewrite !Z.sub_0_r in H.
  cbn [request_cycles seq flat_map] in H. rewrite app_nil_r in H.
  rewrite H; [reflexivity|lia|lia| | |lia].
  - unfold zeros. apply repeat_length.
  - unfold zeros. rewrite le_combine_0. reflexivity.
Qed.

Lemma last_tdi_app a : forall b l, last_tdi (a ++ b) l = last_tdi b (last_tdi a l).
Proof.
  induction a as [|[[] lv] a IH]; intros b l; cbn [app last_tdi]; auto.
Qed.

Lemma loopback_sample tdo_in M V pins0 i :
  loopback tdo_in ->
  tdo_in (sample_history M V pins0 i) = Z.testbit V (Z.of_nat i).
Proof.
  intros Hl. rewrite Hl. unfold sample_history.
  rewrite !last_tdi_app. reflexivity.
Qed.

Lemma sum_pow2_testbit V n :
  sum_pow2 (fun i => Z.testbit V (Z.of_nat i)) n = V mod 2 ^ Z.of_nat n.
Proof.
  apply Z.bits_inj'. intros k Hk.
  rewrite testbit_sum_pow2, Z.testbit_mod_pow2 by lia.
  rewrite Z2Nat.id by lia. reflexivity.
Qed.

Lemma sum_pow2_const c n :
  sum_pow2 (fun _ => c) n = if c then 2 ^ Z.of_nat n - 1 else 0.
Proof.
  induction n as [|n IH]; [now destruct c|].
  cbn [sum_pow2]. rewrite IH, Nat2Z.inj_succ, Z.pow_succ_r by lia.
  destruct c; cbn [b2z]; lia.
Qed.

(** ** The command loop *)

Lemma safe_read_some n inp d rest :
  safe_read n inp = Some (d, rest) ->
  n <= Z.of_nat (length inp) /\
  d = firstn (Z.to_nat n) inp /\ rest = skipn (Z.to_nat n) inp.
Proof.
  unfold safe_read. destruct (Z.of_nat (length inp) <? n) eqn:E; [discriminate|].
  apply Z.ltb_ge in E. intros H. inversion H. auto.
Qed.

Lemma safe_read_shorter n inp d rest :
  safe_read n inp = Some (d, rest) -> (length rest <= length inp)%nat.
Proof.
  intros H. apply safe_read_some in H. destruct H as (_ & _ & ->).
  rewrite length_skipn. lia.
Qed.

Lemma safe_read_two inp d rest :
  safe_read 2 inp = Some (d, rest) -> (length rest < length inp)%nat.
Proof.
  intros H. apply safe_read_some in H. destruct H as (Hn & _ & ->).
  rewrite length_skipn. lia.
Qed.

Lemma safe_read_app n d rest :
  Z.of_nat (length d) = n -> safe_read n (d ++ rest) = Some (d, rest).
Proof.
  intros <-. unfold safe_read. rewrite length_app, Nat2Z.id.
  assert (E : (Z.of_nat (length d + length rest) <? Z.of_nat (length d)) = false)
    by (apply Z.ltb_ge; lia).
  rewrite E. now rewrite take_app_length, drop_app_length.
Qed.

Lemma falsy_nonempty d rest : (0 < length d)%nat -> falsy (Some (d, rest)) = false.
Proof. destruct d; cbn [length falsy]; [lia|reflexivity]. Qed.

Lemma bytes_eqb_eq a b : bytes_eqb a b = true <-> a = b.
Proof.
  unfold bytes_eqb. destruct (Stdlib.Lists.List.list_eq_dec Byte.byte_eq_dec a b).
  - tauto.
  - split; [discriminate|contradiction].
Qed.

Lemma bytes_eqb_neq a b : a <> b -> bytes_eqb a b = false.
Proof.
  intros H. destruct (bytes_eqb a b) eqn:E; [|reflexivity].
  apply bytes_eqb_eq in E. contradiction.
Qed.

Lemma safe_read_app_more d m tail :
  0 <= m ->
  safe_read (Z.of_nat (length d) + m) (d ++ tail) =
  match safe_read m tail with
  | Some (x, r) => Some (d ++ x, r)
  | None => None
  end.
Proof.
  intros Hm. unfold safe_read. rewrite length_app.
  destruct (Z.of_nat (length tail) <? m) eqn:E.
  - apply Z.ltb_lt in E.
    assert (E' : (Z.of_nat (length d + length tail) <? Z.of_nat (length d) + m) = true)
      by (apply Z.ltb_lt; lia).
    now rewrite E'.
  - apply Z.ltb_ge in E.
    assert (E' : (Z.of_nat (length d + length tail) <? Z.of_nat (length d) + m) = false)
      by (apply Z.ltb_ge; lia).
    rewrite E'.
    replace (Z.to_nat (Z.of_nat (length d) + m)) with (length d + Z.to_nat m)%nat by lia.
    now rewrite take_app_add, drop_app_add.
Qed.

Section Client.

Variable tdo_in : list PinWrite -> bool.

(** The rest of the loop is only run on what is left of the input. *)
Lemma client_step_ext k1 k2 inp pins :
  (forall inp' pins', (length inp' < length inp)%nat -> k1 inp' pins' = k2 inp' pins') ->
  client_step tdo_in k1 inp pins = client_step tdo_in k2 inp pins.
Proof.
  intros Hk. unfold client_step.
  destruct (safe_read 2 inp) as [[p rest]|] eqn:E2; [|reflexivity].
  pose proof (safe_read_two _ _ _ E2) as H2.
  destruct (falsy _); [reflexivity|].
  destruct (bytes_eqb p prefix_ge).
  { destruct (safe_read 6 rest) as [[r rest1]|] eqn:E6; [|reflexivity].
    pose proof (safe_read_shorter _ _ _ _ E6).
    destruct (falsy _); [reflexivity|]. rewrite Hk by lia. reflexivity. }
  destruct (bytes_eqb p prefix_se).
  { destruct (safe_read 9 rest) as [[r rest1]|] eqn:E9; [|reflexivity].
    pose proof (safe_read_shorter _ _ _ _ E9).
    destruct (falsy _); [reflexivity|]. rewrite Hk by lia. reflexivity. }
  destruct (bytes_eqb p prefix_sh); [|reflexivity].
  destruct (safe_read 4 rest) as [[r rest1]|] eqn:E4; [|reflexivity].
  pose proof (safe_read_shorter _ _ _ _ E4).
  destruct (falsy _); [reflexivity|].
  destruct (safe_read 4 rest1) as [[ld rest2]|] eqn:E4'; [|reflexivity].
  pose proof (safe_read_shorter _ _ _ _ E4').
  destruct (falsy _); [reflexivity|]. cbv zeta.
  destruct (4096 <? _); [reflexivity|].
  destruct (safe_read _ rest2) as [[buf rest3]|] eqn:Eb; [|reflexivity].
  pose proof (safe_read_shorter _ _ _ _ Eb).
  destruct (falsy _); [reflexivity|].
  destruct (handle_shift _ _ _ _) as [[resp pins1]|]; [|reflexivity].
  rewrite Hk by lia. reflexivity.
Qed.

Lemma client_step_ok k inp pins :
  (forall inp' pins', (length inp' < length inp)%nat -> exists r, k inp' pins' = Ok r) ->
  exists r, client_step tdo_in k inp pins = Ok r.
Proof.
  intros Hk. unfold client_step.
  destruct (safe_read 2 inp) as [[p rest]|] eqn:E2; [|eauto].
  pose proof (safe_read_two _ _ _ E2) as H2.
  destruct (falsy _); [eauto|].
  destruct (bytes_eqb p prefix_ge).
  { destruct (safe_read 6 rest) as [[r rest1]|] eqn:E6; [|eauto].
    pose proof (safe_read_shorter _ _ _ _ E6).
    destruct (falsy _); [eauto|].
    destruct (Hk rest1 pins) as [r' ->]; [lia|]. cbn [bind]. eauto. }
  destruct (bytes_eqb p prefix_se).
  { destruct (safe_read 9 rest) as [[r rest1]|] eqn:E9; [|eauto].
    pose proof (safe_read_shorter _ _ _ _ E9).
    destruct (falsy _); [eauto|].
    destruct (Hk rest1 pins) as [r' ->]; [lia|]. cbn [bind]. eauto. }
  destruct (bytes_eqb p prefix_sh); [|eauto].
  destruct (safe_read 4 rest) as [[r rest1]|] eqn:E4; [|eauto].
  pose proof (safe_read_shorter _ _ _ _ E4).
  destruct (falsy _); [eauto|].
  destruct (safe_read 4 rest1) as [[ld rest2]|] eqn:E4'; [|eauto].
  pose proof (safe_read_shorter _ _ _ _ E4').
  destruct (falsy _); [eauto|]. cbv zeta.
  destruct (4096 <? _); [eauto|].
  destruct (safe_read _ rest2) as [[buf rest3]|] eqn:Eb; [|eauto].
  pose proof (safe_read_shorter _ _ _ _ Eb).
  destruct (falsy _); [eauto|].
  destruct (handle_shift _ _ _ _) as [[resp pins1]|]; [|eauto].
  destruct (Hk rest3 pins1) as [r' ->]; [lia|]. cbn [bind]. eauto.
Qed.

Lemma client_loop_fuel : forall f1 f2 inp pins,
  (length inp < f1)%nat -> (length inp < f2)%nat ->
  client_loop tdo_in f1 inp pins = client_loop tdo_in f2 inp pins.
Proof.
  induction f1 as [|f1 IH]; intros [|f2] inp pins H1 H2; try lia.
  cbn [client_loop]. apply client_step_ext. intros inp' pins' Hlt.
  apply IH; lia.
Qed.

Lemma client_loop_ok : forall fuel inp pins,
  (length inp < fuel)%nat -> exists r, client_loop tdo_in fuel inp pins = Ok r.
Proof.
  induction fuel as [|f IH]; intros inp pins H; [lia|].
  cbn [client_loop]. apply client_step_ok. intros inp' pins' Hlt. apply IH. lia.
Qed.

(** [handle_client] is one iteration followed by [handle_client] on the
    rest of the input. *)
Lemma handle_client_eq inp pins :
  handle_client tdo_in inp pins = client_step tdo_in (handle_client tdo_in) inp pins.
Proof.
  unfold handle_client at 1. cbn [client_loop]. apply client_step_ext.
  intros inp' pins' Hlt. unfold handle_client. apply client_loop_fuel; lia.
Qed.

Lemma handle_client_ok inp pins : exists r, handle_client tdo_in inp pins = Ok r.
Proof. unfold handle_client. apply client_loop_ok. lia. Qed.

Lemma client_getinfo six tail pins :
  length six = 6%nat ->
  handle_client tdo_in (prefix_ge ++ six ++ tail) pins =
  let? more := handle_client tdo_in tail pins in
  Ok (xvc_version ++ fst more, snd more).
Proof.
  intros H6. rewrite handle_client_eq. unfold client_step.
  rewrite (safe_read_app 2 prefix_ge) by reflexivity.
  rewrite falsy_nonempty by (cbn; lia).
  change (bytes_eqb prefix_ge prefix_ge) with true. cbv iota.
  rewrite (safe_read_app 6 six) by lia.
  rewrite falsy_nonempty by lia. reflexivity.
Qed.

Lemma client_settck five period tail pins :
  length five = 5%nat -> length period = 4%nat ->
  handle_client tdo_in (prefix_se ++ five ++ period ++ tail) pins =
  let? more := handle_client tdo_in tail pins in
  Ok (period ++ fst more, snd more).
Proof.
  intros H5 H4. rewrite handle_client_eq. unfold client_step.
  rewrite (safe_read_app 2 prefix_se) by reflexivity.
  rewrite falsy_nonempty by (cbn; lia).
  change (bytes_eqb prefix_se prefix_ge) with false.
  change (bytes_eqb prefix_se prefix_se) with true. cbv iota.
  rewrite (app_assoc five period tail).
  rewrite (safe_read_app 9 (five ++ period)) by (rewrite length_app; lia).
  rewrite falsy_nonempty by (rewrite length_app; lia).
  unfold handle_settck. rewrite <- H5, drop_app_length. reflexivity.
Qed.

Lemma client_shift four nbits buffer tail pins :
  length four = 4%nat ->
  0 < nbits <= 16384 ->
  Z.of_nat (length buffer) = 2 * ((nbits + 7) / 8) ->
  handle_client tdo_in (prefix_sh ++ four ++ le_split 4 nbits ++ buffer ++ tail) pins =
  let? more :=
    handle_client tdo_in tail
      (gpio_write 0 1 0
         (gpio_write 0 1 1 pins ++
          request_cycles (tms_vector nbits buffer) (tdi_vector nbits buffer)
            (Z.to_nat nbits))) in
  Ok (le_split (Z.to_nat ((nbits + 7) / 8))
        (expected_tdo tdo_in (tms_vector nbits buffer) (tdi_vector nbits buffer)
           (gpio_write 0 1 1 pins) (Z.to_nat nbits)) ++ fst more,
      snd more).
Proof.
  intros H4 Hn Hlen. rewrite handle_client_eq. unfold client_step.
  rewrite (safe_read_app 2 prefix_sh) by reflexivity.
  rewrite falsy_nonempty by (cbn; lia).
  change (bytes_eqb prefix_sh prefix_ge) with false.
  change (bytes_eqb prefix_sh prefix_se) with false.
  change (bytes_eqb prefix_sh prefix_sh) with true. cbv iota.
  rewrite (safe_read_app 4 four) by lia.
  rewrite falsy_nonempty by lia.
  rewrite (safe_read_app 4 (le_split 4 nbits)) by (rewrite length_le_split; lia).
  rewrite falsy_nonempty by (rewrite length_le_split; lia).
  cbv zeta. rewrite le_combine_split.
  change (Z.of_nat 4 * 8) with 32.
  rewrite (Z.mod_small nbits) by lia.
  pose proof (num_bytes_bounds nbits) as Hnb.
  assert (Hnb' : 1 <= (nbits + 7) / 8 <= 2048) by lia.
  assert (E : (4096 <? (nbits + 7) / 8 * 2) = false) by (apply Z.ltb_ge; lia).
  rewrite E.
  rewrite (safe_read_app _ buffer) by lia.
  rewrite falsy_nonempty by lia.
  rewrite handle_shift_spec by lia. reflexivity.
Qed.

Lemma vectors_of_app nbits tms tdi :
  Z.of_nat (length tms) = (nbits + 7) / 8 ->
  Z.of_nat (length tdi) = (nbits + 7) / 8 ->
  tms_vector nbits (tms ++ tdi) = le_combine tms /\
  tdi_vector nbits (tms ++ tdi) = le_combine tdi.
Proof.
  intros Hm Hd. unfold tms_vector, tdi_vector, slice.
  replace (Z.to_nat ((nbits + 7) / 8 - 0)) with (length tms) by lia.
  replace (Z.to_nat (2 * ((nbits + 7) / 8) - (nbits + 7) / 8))
    with (length tdi) by lia.
  replace (Z.to_nat ((nbits + 7) / 8)) with (length tms) by lia.
  change (Z.to_nat 0) with 0%nat. rewrite drop_0.
  rewrite take_app_length, drop_app_length, firstn_all. split; reflexivity.
Qed.

Lemma session_spec tail cmds :
  Forall well_formed cmds ->
  forall pins,
    handle_client tdo_in (concat (map encode cmds) ++ tail) pins =
    let? more := handle_client tdo_in tail (snd (session tdo_in cmds pins)) in
    Ok (fst (session tdo_in cmds pins) ++ fst more, snd more).
Proof.
  induction 1 as [|c cmds Hc Hall IH]; intros pins.
  - cbn [map concat app session fst snd].
    destruct (handle_client tdo_in tail pins) as [[a b]|]; reflexivity.
  - cbn [map concat]. rewrite <- app_assoc.
    destruct c as [|period|nbits tms tdi]; cbn [well_formed] in Hc.
    + change (encode GetInfo ++ concat (map encode cmds) ++ tail)
        with (prefix_ge ++ list_byte_of_string "tinfo:" ++
              concat (map encode cmds) ++ tail).
      rewrite client_getinfo by reflexivity. rewrite IH. cbn [session fst snd].
      destruct (handle_client tdo_in tail _) as [[a b]|]; cbn [bind fst snd]; [|reflexivity].
      now rewrite <- app_assoc.
    + change (encode (SetTck period))
        with (prefix_se ++ list_byte_of_string "ttck:" ++ period).
      rewrite <- !app_assoc.
      rewrite client_settck by (reflexivity || exact Hc). rewrite IH. cbn [session fst snd].
      destruct (handle_client tdo_in tail _) as [[a b]|]; cbn [bind fst snd]; [|reflexivity].
      now rewrite <- app_assoc.
    + destruct Hc as (Hn & Hm & Hd).
      change (encode (Shift nbits tms tdi))
        with (prefix_sh ++ list_byte_of_string "ift:" ++ le_split 4 nbits ++ tms ++ tdi).
      rewrite <- !app_assoc.
      rewrite (app_assoc tms tdi).
      rewrite client_shift by (reflexivity || lia || (rewrite length_app; lia)).
      destruct (vectors_of_app nbits tms tdi Hm Hd) as [-> ->].
      unfold gpio_write. change (py_bool 0) with false. change (py_bool 1) with true.
      fold (low_writes true true). fold (low_writes true false).
      rewrite <- !app_assoc. rewrite IH. cbn [session fst snd].
      rewrite <- Hd, Nat2Z.id. rewrite <- !app_assoc.
      destruct (handle_client tdo_in tail _) as [[a b]|]; cbn [bind fst snd]; [|reflexivity].
      now rewrite <- app_assoc.
Qed.

Lemma client_bad_prefix p rest pins :
  length p = 2%nat -> p <> prefix_ge -> p <> prefix_se -> p <> prefix_sh ->
  handle_client tdo_in (p ++ rest) pins = Ok ([], pins).
Proof.
  intros H2 Hge Hse Hsh. rewrite handle_client_eq. unfold client_step.
  rewrite (safe_read_app 2 p) by lia.
  rewrite falsy_nonempty by lia.
  now rewrite !bytes_eqb_neq by assumption.
Qed.

Lemma client_shift_out_of_range four nbits rest pins :
  length four = 4%nat ->
  nbits = 0 \/ 16384 < nbits < 2 ^ 32 ->
  handle_client tdo_in (prefix_sh ++ four ++ le_split 4 nbits ++ rest) pins = Ok ([], pins).
Proof.
  intros H4 Hn. rewrite handle_client_eq. unfold client_step.
  rewrite (safe_read_app 2 prefix_sh) by reflexivity.
  rewrite falsy_nonempty by (cbn; lia).
  change (bytes_eqb prefix_sh prefix_ge) with false.
  change (bytes_eqb prefix_sh prefix_se) with false.
  change (bytes_eqb prefix_sh prefix_sh) with true. cbv iota.
  rewrite (safe_read_app 4 four) by lia.
  rewrite falsy_nonempty by lia.
  rewrite (safe_read_app 4 (le_split 4 nbits)) by (rewrite length_le_split; lia).
  rewrite falsy_nonempty by (rewrite length_le_split; lia).
  cbv zeta. rewrite le_combine_split.
  change (Z.of_nat 4 * 8) with 32.
  rewrite (Z.mod_small nbits) by lia.
  destruct Hn as [->|Hn].
  - change ((0 + 7) / 8 * 2) with 0. change (4096 <? 0) with false. cbv iota.
    unfold safe_read.
    assert (E : (Z.of_nat (length rest) <? 0) = false) by (apply Z.ltb_ge; lia).
    rewrite E. reflexivity.
  - pose proof (num_bytes_bounds nbits) as Hnb.
    assert (E : (4096 <? (nbits + 7) / 8 * 2) = true) by (apply Z.ltb_lt; lia).
    rewrite E. reflexivity.
Qed.

Lemma serve_ok : forall conns pins,
  exists replies pins',
    serve tdo_in conns pins = Ok (replies, pins') /\ length replies = length conns.
Proof.
  induction conns as [|inp conns IH]; intros pins.
  - exists [], pins. split; reflexivity.
  - cbn [serve]. destruct (handle_client_ok inp pins) as [[r p] ->]. cbn [bind fst snd].
    destruct (IH p) as (rs & p' & -> & Hlen). cbn [bind fst snd].
    exists (r :: rs), p'. split; [reflexivity|]. cbn [length]. now rewrite Hlen.
Qed.

Lemma shift_short_buffer nbits buffer pins :
  32 <= nbits ->
  Z.of_nat (length buffer) < (nbits + 7) / 8 + 4 ->
  handle_shift tdo_in nbits buffer pins = Err StructError.
Proof.
  intros Hn Hlen. unfold handle_shift.
  pose proof (num_bytes_bounds nbits) as Hnb.
  assert (E : ((nbits + 7) / 8 <? 0) = false) by (apply Z.ltb_ge; lia).
  rewrite E.
  destruct (Z.to_nat ((nbits + 7) / 8)) as [|f] eqn:Ef; [lia|].
  cbn [shift_loop].
  assert (E0 : ((nbits + 7) / 8 <=? 0) = false) by (apply Z.leb_gt; lia).
  assert (E4 : (4 <=? (nbits + 7) / 8) = true) by (apply Z.leb_le; lia).
  assert (E32 : (32 <=? nbits) = true) by (apply Z.leb_le; lia).
  rewrite E0, E4, E32. cbn [andb].
  unfold unpack_u32 at 1.
  destruct (length (slice buffer 0 (0 + 4)) =? 4)%nat; [|reflexivity].
  cbn [bind]. unfold unpack_u32 at 1.
  assert (El : (length (slice buffer (0 + (nbits + 7) / 8) (0 + (nbits + 7) / 8 + 4)) =? 4)%nat
               = false).
  { apply Nat.eqb_neq. unfold slice. rewrite length_firstn, length_skipn. lia. }
  rewrite El. reflexivity.
Qed.

End Client.

End XVCFacts.

(** ** The XVC server: what a shift returns *)

(** X10: [gpio_transfer] of [num_bits] bits returns the number whose bit
    [k] is the TDO level sampled in the high phase of cycle [k], for
    every [k] below [num_bits] and no other bit, whatever the target; the
    pins are written low, high, low for each bit with the bit's TMS and
    TDI levels; a negative [num_bits] transfers nothing. *)
Theorem xvc_transfer_samples tdo_in num_bits tms tdi pins :
  XVC.gpio_transfer tdo_in num_bits tms tdi pins =
  (sum_pow2 (fun k => tdo_in (XVC.sample_history tms tdi pins k)) (Z.to_nat num_bits),
   pins ++ XVC.request_cycles tms tdi (Z.to_nat num_bits)).
Proof.
  destruct (Z.le_gt_cases 0 num_bits) as [Hpos|Hneg].
  - pose proof (XVCFacts.gpio_transfer_spec tdo_in tms tdi pins 0 tms tdi num_bits Hpos) as H.
    cbn [XVC.request_cycles seq flat_map Nat.add] in H. rewrite app_nil_r in H.
    apply H. intros k _. split; reflexivity.
  - unfold XVC.gpio_transfer. destruct num_bits; try lia.
    cbn [Z.to_nat XVC.transfer_loop sum_pow2 XVC.request_cycles seq flat_map].
    now rewrite app_nil_r.
Qed.

(** X11: for every target, a shift of [nbits >= 0] bits on a buffer that
    holds both vectors returns [ceil(nbits / 8)] bytes whose little-endian
    value has the TDO sample of cycle [i] at bit [i] and nothing above bit
    [nbits - 1]; the pins are written TCK low, TMS and TDI high, then the
    cycles of the request bits in order, then TCK low, TMS high, TDI low,
    independently of what TDO reads. *)
Theorem xvc_shift_reply tdo_in nbits buffer pins :
  0 <= nbits ->
  2 * ((nbits + 7) / 8) <= Z.of_nat (length buffer) ->
  exists reply,
    XVC.handle_shift tdo_in nbits buffer pins =
      Ok (reply,
          pins ++ XVC.low_writes true true ++
          XVC.request_cycles (XVC.tms_vector nbits buffer) (XVC.tdi_vector nbits buffer)
            (Z.to_nat nbits) ++
          XVC.low_writes true false) /\
    length reply = Z.to_nat ((nbits + 7) / 8) /\
    le_combine reply =
      XVC.expected_tdo tdo_in (XVC.tms_vector nbits buffer) (XVC.tdi_vector nbits buffer)
        (pins ++ XVC.low_writes true true) (Z.to_nat nbits) /\
    0 <= le_combine reply < 2 ^ nbits.
Proof.
  intros Hpos Hlong.
  exists (le_split (Z.to_nat ((nbits + 7) / 8))
            (XVC.expected_tdo tdo_in (XVC.tms_vector nbits buffer)
               (XVC.tdi_vector nbits buffer) (pins ++ XVC.low_writes true true)
               (Z.to_nat nbits))).
  split; [|split; [|split]].
  - rewrite XVCFacts.handle_shift_spec by assumption.
    unfold XVC.gpio_write. rewrite <- !app_assoc. reflexivity.
  - apply length_le_split.
  - rewrite le_combine_split. unfold XVC.expected_tdo.
    match goal with
    | |- context [sum_pow2 ?f ?n] => pose proof (sum_pow2_bounds f n) as Hb
    end.
    rewrite Z2Nat.id in Hb by lia.
    pose proof (XVCFacts.num_bytes_bounds nbits) as Hnb.
    assert (Hle : 2 ^ nbits <= 2 ^ (Z.of_nat (Z.to_nat ((nbits + 7) / 8)) * 8))
      by (apply Z.pow_le_mono_r; lia).
    apply Z.mod_small. lia.
  - rewrite le_combine_split. unfold XVC.expected_tdo.
    match goal with
    | |- context [sum_pow2 ?f ?n] => pose proof (sum_pow2_bounds f n) as Hb
    end.
    rewrite Z2Nat.id in Hb by lia.
    pose proof (XVCFacts.num_bytes_bounds nbits) as Hnb.
    assert (Hle : 2 ^ nbits <= 2 ^ (Z.of_nat (Z.to_nat ((nbits + 7) / 8)) * 8))
      by (apply Z.pow_le_mono_r; lia).
    rewrite Z.mod_small by lia. lia.
Qed.

Lemma xvc_shift_reply_witness :
  exists reply,
    XVC.handle_shift XVC.loopback_target 12 [Byte.x00; Byte.x00; Byte.xa5; Byte.xff] [] =
      Ok (reply,
          [] ++ XVC.low_writes true true ++
          XVC.request_cycles
            (XVC.tms_vector 12 [Byte.x00; Byte.x00; Byte.xa5; Byte.xff])
            (XVC.tdi_vector 12 [Byte.x00; Byte.x00; Byte.xa5; Byte.xff])
            (Z.to_nat 12) ++
          XVC.low_writes true false) /\
    length reply = Z.to_nat ((12 + 7) / 8) /\
    le_combine reply =
      XVC.expected_tdo XVC.loopback_target
        (XVC.tms_vector 12 [Byte.x00; Byte.x00; Byte.xa5; Byte.xff])
        (XVC.tdi_vector 12 [Byte.x00; Byte.x00; Byte.xa5; Byte.xff])
        ([] ++ XVC.low_writes true true) (Z.to_nat 12) /\
    0 <= le_combine reply < 2 ^ 12.
Proof.
  apply (xvc_shift_reply XVC.loopback_target 12
           [Byte.x00; Byte.x00; Byte.xa5; Byte.xff] []).
  - lia.
  - apply Z.leb_le. vm_compute. reflexivity.
Defined.

(** X12: on a target that loops TDI back to TDO, a shift of [nbits] bits
    returns the request's TDI vector cut to [nbits] bits: the bytes of
    [tdi mod 2 ^ nbits]; when [nbits] is a multiple of 8 these are the
    TDI bytes of the request themselves. *)
Theorem xvc_shift_loopback tdo_in nbits buffer pins :
  XVC.loopback tdo_in ->
  0 <= nbits ->
  2 * ((nbits + 7) / 8) <= Z.of_nat (length buffer) ->
  exists reply pins',
    XVC.handle_shift tdo_in nbits buffer pins = Ok (reply, pins') /\
    reply = le_split (Z.to_nat ((nbits + 7) / 8))
              (XVC.tdi_vector nbits buffer mod 2 ^ nbits) /\
    (forall i, 0 <= i ->
       Z.testbit (le_combine reply) i =
       (i <? nbits) && Z.testbit (XVC.tdi_vector nbits buffer) i) /\
    (nbits = 8 * ((nbits + 7) / 8) ->
     reply = XVC.slice buffer ((nbits + 7) / 8) (2 * ((nbits + 7) / 8))).
Proof.
  intros Hloop Hpos Hlong.
  rewrite XVCFacts.handle_shift_spec by assumption.
  assert (E : XVC.expected_tdo tdo_in (XVC.tms_vector nbits buffer)
                (XVC.tdi_vector nbits buffer) (XVC.gpio_write 0 1 1 pins) (Z.to_nat nbits) =
              XVC.tdi_vector nbits buffer mod 2 ^ nbits).
  { unfold XVC.expected_tdo.
    rewrite (sum_pow2_ext _ (fun i => Z.testbit (XVC.tdi_vector nbits buffer) (Z.of_nat i)))
      by (intros i _; apply XVCFacts.loopback_sample; exact Hloop).
    rewrite XVCFacts.sum_pow2_testbit, Z2Nat.id by lia. reflexivity. }
  rewrite E. eexists _, _. split; [reflexivity|]. split; [reflexivity|].
  split.
  { intros i Hi. rewrite le_combine_split.
    pose proof (XVCFacts.num_bytes_bounds nbits) as Hnb.
    pose proof (Z.mod_pos_bound (XVC.tdi_vector nbits buffer) (2 ^ nbits)
                  (Z.pow_pos_nonneg 2 nbits ltac:(lia) Hpos)) as Hm.
    assert (Hle : 2 ^ nbits <= 2 ^ (Z.of_nat (Z.to_nat ((nbits + 7) / 8)) * 8))
      by (apply Z.pow_le_mono_r; lia).
    rewrite (Z.mod_small (_ mod _)) by lia.
    apply Z.testbit_mod_pow2. exact Hpos. }
  intros H8.
  assert (Hnbpos : 0 <= (nbits + 7) / 8) by (apply Z.div_pos; lia).
  assert (Hlen : length (XVC.slice buffer ((nbits + 7) / 8) (2 * ((nbits + 7) / 8))) =
                 Z.to_nat ((nbits + 7) / 8)).
  { rewrite XVCFacts.length_slice by lia. f_equal. lia. }
  pose proof (le_combine_bound
                (XVC.slice buffer ((nbits + 7) / 8) (2 * ((nbits + 7) / 8)))) as Hb.
  rewrite Hlen in Hb.
  unfold XVC.tdi_vector. rewrite Z.mod_small.
  - rewrite <- Hlen at 1. apply split_le_combine.
  - replace (2 ^ nbits) with (2 ^ (8 * Z.of_nat (Z.to_nat ((nbits + 7) / 8)))); [exact Hb|].
    f_equal. lia.
Qed.

Lemma xvc_shift_loopback_witness :
  exists reply pins',
    XVC.handle_shift XVC.loopback_target 12 [Byte.x00; Byte.x00; Byte.xa5; Byte.xff] [] =
      Ok (reply, pins') /\
    reply = le_split (Z.to_nat ((12 + 7) / 8))
              (XVC.tdi_vector 12 [Byte.x00; Byte.x00; Byte.xa5; Byte.xff] mod 2 ^ 12) /\
    (forall i, 0 <= i ->
       Z.testbit (le_combine reply) i =
       (i <? 12) && Z.testbit (XVC.tdi_vector 12 [Byte.x00; Byte.x00; Byte.xa5; Byte.xff]) i) /\
    (12 = 8 * ((12 + 7) / 8) ->
     reply = XVC.slice [Byte.x00; Byte.x00; Byte.xa5; Byte.xff]
               ((12 + 7) / 8) (2 * ((12 + 7) / 8))).
Proof.
  apply (xvc_shift_loopback XVC.loopback_target 12
           [Byte.x00; Byte.x00; Byte.xa5; Byte.xff] []).
  - intros pins. reflexivity.
  - lia.
  - apply Z.leb_le. vm_compute. reflexivity.
Defined.

(** X13: on a target whose TDO is stuck at one level, a shift of [nbits]
    bits returns all zero bytes when the level is low, and the bytes of
    [2 ^ nbits - 1] when it is high: the bits above [nbits] in the last
    byte stay zero. *)
Theorem xvc_shift_constant_target tdo_in (level : bool) nbits buffer pins :
  (forall p, tdo_in p = level) ->
  0 <= nbits ->
  2 * ((nbits + 7) / 8) <= Z.of_nat (length buffer) ->
  exists pins',
    XVC.handle_shift tdo_in nbits buffer pins =
    Ok (le_split (Z.to_nat ((nbits + 7) / 8)) (if level then 2 ^ nbits - 1 else 0), pins').
Proof.
  intros Hconst Hpos Hlong.
  rewrite XVCFacts.handle_shift_spec by assumption.
  unfold XVC.expected_tdo.
  rewrite (sum_pow2_ext _ (fun _ => level)) by (intros i _; apply Hconst).
  rewrite XVCFacts.sum_pow2_const, Z2Nat.id by lia.
  eexists. reflexivity.
Qed.

Lemma xvc_shift_constant_target_witness :
  exists pins',
    XVC.handle_shift (fun _ => true) 12 [Byte.x00; Byte.x00; Byte.xa5; Byte.xff] [] =
    Ok (le_split (Z.to_nat ((12 + 7) / 8)) (if true then 2 ^ 12 - 1 else 0), pins').
Proof.
  apply (xvc_shift_constant_target (fun _ => true) true 12
           [Byte.x00; Byte.x00; Byte.xa5; Byte.xff] []).
  - intros p. reflexivity.
  - lia.
  - apply Z.leb_le. vm_compute. reflexivity.
Defined.

(** X14: a shift of 32 bits or more on a buffer shorter than
    [ceil(nbits / 8) + 4] bytes raises [struct.error] in its first chunk
    ([handle_shift] does not check the length of the buffer). *)
Theorem xvc_shift_short_buffer_raises tdo_in nbits buffer pins :
  32 <= nbits ->
  Z.of_nat (length buffer) < (nbits + 7) / 8 + 4 ->
  XVC.handle_shift tdo_in nbits buffer pins = Err StructError.
Proof. apply XVCFacts.shift_short_buffer. Qed.

Lemma xvc_shift_short_buffer_raises_witness :
  XVC.handle_shift (fun _ => false) 32
    [Byte.x01; Byte.x02; Byte.x03; Byte.x04; Byte.x05; Byte.x06; Byte.x07] [] =
  Err StructError.
Proof.
  apply (xvc_shift_short_buffer_raises (fun _ => false) 32
           [Byte.x01; Byte.x02; Byte.x03; Byte.x04; Byte.x05; Byte.x06; Byte.x07] []).
  - lia.
  - vm_compute. reflexivity.
Defined.

(** ** The XVC server: connections *)

(** X15: a connection that sends well-formed commands ([getinfo:],
    [settck:] with a 4-byte period, [shift:] of 1 to 16384 bits with both
    vectors) gets one reply per command, in order: the version line, the
    period echoed, the sampled TDO vector; whatever follows the commands
    is handled from the pins the commands leave; when nothing follows,
    the connection ends with exactly these replies. *)
Theorem xvc_session_replies tdo_in cmds tail pins :
  Forall XVC.well_formed cmds ->
  XVC.handle_client tdo_in (concat (map XVC.encode cmds) ++ tail) pins =
    (let? more := XVC.handle_client tdo_in tail (snd (XVC.session tdo_in cmds pins)) in
     Ok (fst (XVC.session tdo_in cmds pins) ++ fst more, snd more)) /\
  XVC.handle_client tdo_in (concat (map XVC.encode cmds)) pins =
    Ok (XVC.session tdo_in cmds pins).
Proof.
  intros Hwf. split.
  - apply XVCFacts.session_spec. exact Hwf.
  - pose proof (XVCFacts.session_spec tdo_in [] cmds Hwf pins) as H.
    rewrite app_nil_r in H. rewrite H.
    change (XVC.handle_client tdo_in [] (snd (XVC.session tdo_in cmds pins)))
      with (Ok (@nil byte, snd (XVC.session tdo_in cmds pins))).
    cbn [bind fst snd]. rewrite app_nil_r.
    now destruct (XVC.session tdo_in cmds pins).
Qed.

Lemma xvc_session_replies_witness :
  XVC.handle_client XVC.loopback_target
    (concat (map XVC.encode
               [XVC.GetInfo;
                XVC.SetTck [Byte.xe8; Byte.x03; Byte.x00; Byte.x00];
                XVC.Shift 12 [Byte.x00; Byte.x00] [Byte.xa5; Byte.xff]]) ++
     [Byte.x7a; Byte.x7a]) [] =
    (let? more :=
       XVC.handle_client XVC.loopback_target [Byte.x7a; Byte.x7a]
         (snd (XVC.session XVC.loopback_target
                 [XVC.GetInfo;
                  XVC.SetTck [Byte.xe8; Byte.x03; Byte.x00; Byte.x00];
                  XVC.Shift 12 [Byte.x00; Byte.x00] [Byte.xa5; Byte.xff]] [])) in
     Ok (fst (XVC.session XVC.loopback_target
                [XVC.GetInfo;
                 XVC.SetTck [Byte.xe8; Byte.x03; Byte.x00; Byte.x00];
                 XVC.Shift 12 [Byte.x00; Byte.x00] [Byte.xa5; Byte.xff]] []) ++ fst more,
         snd more)) /\
  XVC.handle_client XVC.loopback_target
    (concat (map XVC.encode
               [XVC.GetInfo;
                XVC.SetTck [Byte.xe8; Byte.x03; Byte.x00; Byte.x00];
                XVC.Shift 12 [Byte.x00; Byte.x00] [Byte.xa5; Byte.xff]])) [] =
    Ok (XVC.session XVC.loopback_target
          [XVC.GetInfo;
           XVC.SetTck [Byte.xe8; Byte.x03; Byte.x00; Byte.x00];
           XVC.Shift 12 [Byte.x00; Byte.x00] [Byte.xa5; Byte.xff]] []).
Proof.
  apply (xvc_session_replies XVC.loopback_target
           [XVC.GetInfo;
            XVC.SetTck [Byte.xe8; Byte.x03; Byte.x00; Byte.x00];
            XVC.Shift 12 [Byte.x00; Byte.x00] [Byte.xa5; Byte.xff]]
           [Byte.x7a; Byte.x7a] []).
  repeat constructor; simpl; lia.
Defined.

(** X16: only the two-byte prefix of a command is compared: after [ge]
    any six bytes, after [se] any five bytes, after [sh] any four bytes
    are read and dropped, and the command is handled as [getinfo:],
    [settck:], [shift:]. *)
Theorem xvc_prefix_only_dispatch tdo_in six five four tail pins :
  length six = 6%nat -> length five = 5%nat -> length four = 4%nat ->
  XVC.handle_client tdo_in (XVC.prefix_ge ++ six ++ tail) pins =
    XVC.handle_client tdo_in (list_byte_of_string "getinfo:" ++ tail) pins /\
  XVC.handle_client tdo_in (XVC.prefix_se ++ five ++ tail) pins =
    XVC.handle_client tdo_in (list_byte_of_string "settck:" ++ tail) pins /\
  XVC.handle_client tdo_in (XVC.prefix_sh ++ four ++ tail) pins =
    XVC.handle_client tdo_in (list_byte_of_string "shift:" ++ tail) pins.
Proof.
  intros H6 H5 H4. split; [|split].
  - change (list_byte_of_string "getinfo:" ++ tail)
      with (XVC.prefix_ge ++ list_byte_of_string "tinfo:" ++ tail).
    rewrite !XVCFacts.client_getinfo by (reflexivity || exact H6). reflexivity.
  - change (list_byte_of_string "settck:" ++ tail)
      with (XVC.prefix_se ++ list_byte_of_string "ttck:" ++ tail).
    rewrite !XVCFacts.handle_client_eq. unfold XVC.client_step.
    rewrite !(XVCFacts.safe_read_app 2 XVC.prefix_se) by reflexivity.
    rewrite !XVCFacts.falsy_nonempty by (simpl; lia).
    change (XVC.bytes_eqb XVC.prefix_se XVC.prefix_ge) with false.
    change (XVC.bytes_eqb XVC.prefix_se XVC.prefix_se) with true. cbv iota.
    pose proof (XVCFacts.safe_read_app_more five 4 tail) as E1.
    pose proof (XVCFacts.safe_read_app_more (list_byte_of_string "ttck:") 4 tail) as E2.
    rewrite H5 in E1. change (Z.of_nat 5 + 4) with 9 in E1.
    change (Z.of_nat (length (list_byte_of_string "ttck:")) + 4) with 9 in E2.
    rewrite E1, E2 by lia.
    destruct (XVC.safe_read 4 tail) as [[x r]|]; [|reflexivity].
    rewrite !XVCFacts.falsy_nonempty by (rewrite length_app; simpl; lia).
    unfold XVC.handle_settck.
    rewrite (drop_app_length' five x 5 (eq_sym H5)).
    rewrite (drop_app_length' (list_byte_of_string "ttck:") x 5 eq_refl).
    reflexivity.
  - change (list_byte_of_string "shift:" ++ tail)
      with (XVC.prefix_sh ++ list_byte_of_string "ift:" ++ tail).
    rewrite !XVCFacts.handle_client_eq. unfold XVC.client_step.
    rewrite !(XVCFacts.safe_read_app 2 XVC.prefix_sh) by reflexivity.
    rewrite !XVCFacts.falsy_nonempty by (simpl; lia).
    change (XVC.bytes_eqb XVC.prefix_sh XVC.prefix_ge) with false.
    change (XVC.bytes_eqb XVC.prefix_sh XVC.prefix_se) with false.
    change (XVC.bytes_eqb XVC.prefix_sh XVC.prefix_sh) with true. cbv iota.
    rewrite (XVCFacts.safe_read_app 4 four) by lia.
    rewrite (XVCFacts.safe_read_app 4 (list_byte_of_string "ift:")) by reflexivity.
    rewrite !XVCFacts.falsy_nonempty by (simpl; lia).
    reflexivity.
Qed.

Lemma xvc_prefix_only_dispatch_witness :
  XVC.handle_client XVC.loopback_target
    (XVC.prefix_ge ++ list_byte_of_string "xxxxxx" ++ list_byte_of_string "getinfo:") [] =
    XVC.handle_client XVC.loopback_target
      (list_byte_of_string "getinfo:" ++ list_byte_of_string "getinfo:") [] /\
  XVC.handle_client XVC.loopback_target
    (XVC.prefix_se ++ list_byte_of_string "xxxxx" ++ list_byte_of_string "getinfo:") [] =
    XVC.handle_client XVC.loopback_target
      (list_byte_of_string "settck:" ++ list_byte_of_string "getinfo:") [] /\
  XVC.handle_client XVC.loopback_target
    (XVC.prefix_sh ++ list_byte_of_string "xxxx" ++ list_byte_of_string "getinfo:") [] =
    XVC.handle_client XVC.loopback_target
      (list_byte_of_string "shift:" ++ list_byte_of_string "getinfo:") [].
Proof.
  apply (xvc_prefix_only_dispatch XVC.loopback_target
           (list_byte_of_string "xxxxxx") (list_byte_of_string "xxxxx")
           (list_byte_of_string "xxxx") (list_byte_of_string "getinfo:") []);
    reflexivity.
Defined.

(** X17: when a connection, after any number of well-formed commands,
    sends two bytes that are none of [ge], [se], [sh], or a [shift:] of
    more than 16384 bits, the commands before have been answered, nothing
    is sent for the offending bytes or for what follows them, no pin is
    written for them, and the accept loop goes on with the next
    connections from the pins the answered commands left. *)
Theorem xvc_protocol_error_closes tdo_in cmds bad conns pins :
  Forall XVC.well_formed cmds ->
  XVC.protocol_error bad ->
  XVC.handle_client tdo_in (concat (map XVC.encode cmds) ++ bad) pins =
    Ok (XVC.session tdo_in cmds pins) /\
  XVC.serve tdo_in ((concat (map XVC.encode cmds) ++ bad) :: conns) pins =
    (let? rs := XVC.serve tdo_in conns (snd (XVC.session tdo_in cmds pins)) in
     Ok (fst (XVC.session tdo_in cmds pins) :: fst rs, snd rs)).
Proof.
  intros Hwf Hbad.
  assert (Hclose : forall pins0, XVC.handle_client tdo_in bad pins0 = Ok ([], pins0)).
  { intros pins0.
    destruct Hbad as [(p & rest & -> & H2 & Hge & Hse & Hsh)
                     |(four & nbits & rest & -> & H4 & Hn)].
    - apply XVCFacts.client_bad_prefix; assumption.
    - apply XVCFacts.client_shift_out_of_range; [exact H4|right; exact Hn]. }
  assert (Hc : XVC.handle_client tdo_in (concat (map XVC.encode cmds) ++ bad) pins =
               Ok (XVC.session tdo_in cmds pins)).
  { rewrite XVCFacts.session_spec by exact Hwf.
    rewrite Hclose. cbn [bind fst snd]. rewrite app_nil_r.
    now destruct (XVC.session tdo_in cmds pins). }
  split; [exact Hc|].
  cbn [XVC.serve]. rewrite Hc. reflexivity.
Qed.

Lemma xvc_protocol_error_closes_witness :
  XVC.handle_client XVC.loopback_target
    (concat (map XVC.encode [XVC.GetInfo]) ++
     list_byte_of_string "zz" ++ list_byte_of_string "getinfo:") [] =
    Ok (XVC.session XVC.loopback_target [XVC.GetInfo] []) /\
  XVC.serve XVC.loopback_target
    ((concat (map XVC.encode [XVC.GetInfo]) ++
      list_byte_of_string "zz" ++ list_byte_of_string "getinfo:") ::
     [list_byte_of_string "getinfo:"]) [] =
    (let? rs :=
       XVC.serve XVC.loopback_target [list_byte_of_string "getinfo:"]
         (snd (XVC.session XVC.loopback_target [XVC.GetInfo] [])) in
     Ok (fst (XVC.session XVC.loopback_target [XVC.GetInfo] []) :: fst rs, snd rs)).
Proof.
  apply (xvc_protocol_error_closes XVC.loopback_target [XVC.GetInfo]
           (list_byte_of_string "zz" ++ list_byte_of_string "getinfo:")
           [list_byte_of_string "getinfo:"] []).
  - repeat constructor.
  - left. exists (list_byte_of_string "zz"), (list_byte_of_string "getinfo:").
    repeat split; try reflexivity; discriminate.
Defined.

(** X18: a [shift:] of zero bits ends the connection: the read of the
    empty buffer returns the empty string, which the loop takes for a
    closed connection; nothing is sent, no pin is written, and the rest
    of the input is not read. *)
Theorem xvc_zero_length_shift_closes tdo_in four rest pins :
  length four = 4%nat ->
  XVC.handle_client tdo_in (XVC.prefix_sh ++ four ++ le_split 4 0 ++ rest) pins =
  Ok ([], pins).
Proof.
  intros H4. apply XVCFacts.client_shift_out_of_range; [exact H4|left; reflexivity].
Qed.

Lemma xvc_zero_length_shift_closes_witness :
  XVC.handle_client XVC.loopback_target
    (XVC.prefix_sh ++ list_byte_of_string "ift:" ++ le_split 4 0 ++
     list_byte_of_string "getinfo:") [] =
  Ok ([], []).
Proof.
  apply (xvc_zero_length_shift_closes XVC.loopback_target
           (list_byte_of_string "ift:") (list_byte_of_string "getinfo:") []).
  reflexivity.
Defined.

(** X19: for connections that each send some bytes and then close,
    whatever the bytes are and whatever the target does, the accept loop
    handles every connection: [handle_client] returns for each of them
    (it neither raises nor loops, since every iteration reads at least two
    bytes), and there is one reply, possibly empty, per connection. *)
Theorem xvc_serve_one_reply_per_connection tdo_in conns pins :
  exists replies pins',
    XVC.serve tdo_in conns pins = Ok (replies, pins') /\
    length replies = length conns.
Proof. apply XVCFacts.serve_ok. Qed.
